(** * BigFrames expression trees, column pruning and join compilation

    A shallow embedding of
    - [bigframes/core/nodes.py]: the immutable tree of relational operators
      ([BigFrameNode] and its subclasses), structural equality and hashing,
      and the column pruning rewrite [prune];
    - [bigframes/core/compile/single_column.py]: the join compiler
      ([join_by_column_ordered], [join_by_column_unordered],
      [value_to_join_key]);
    - [bigframes/core/compile/default_ordering.py]: the default ordering
      generator ([gen_default_ordering]).

    Python frozen dataclasses become records and one inductive type with a
    constructor per concrete node class; [frozenset] of column ids becomes
    [gset]; [dict] becomes [gmap]; exceptions become the left injection of a
    sum type. *)

From Stdlib Require Import ZArith Ascii.
From stdpp Require Import base decidable option list strings gmap sets pretty.

Local Open Scope string_scope.
Local Open Scope list_scope.
Set Warnings "-register-all".

(** ** Identifiers, dtypes and fields *)

(** [bigframes.core.identifiers.ColumnId]: a column id is identified by its
    [name]. *)
Definition ColumnId : Type := string.

(** [COLUMN_SET = frozenset[ColumnId]] *)
Abbreviation COLUMN_SET := (gset ColumnId).

(** The dtypes of [bigframes.dtypes].  [nodes.py] names only [INT_DTYPE]
    itself; the others are carried through opaquely and compared for
    equality. *)
Inductive Dtype : Type :=
  | BOOL_DTYPE
  | INT_DTYPE
  | FLOAT_DTYPE
  | STRING_DTYPE
  | BYTES_DTYPE
  | NUMERIC_DTYPE
  | DATE_DTYPE
  | TIME_DTYPE
  | DATETIME_DTYPE
  | TIMESTAMP_DTYPE
  | GEO_DTYPE
  | JSON_DTYPE
  | ARRAY_DTYPE (value_type : Dtype).

#[global] Instance Dtype_eq_dec : EqDecision Dtype.
Proof. solve_decision. Defined.

(** [class Field] *)
Record Field : Type := mkField { field_id : ColumnId; field_dtype : Dtype }.

#[global] Instance Field_eq_dec : EqDecision Field.
Proof. solve_decision. Defined.

(** ** Expressions (module [bigframes.core.expression]) *)

(** [ex.DerefOp]: a reference to one column. *)
Record DerefOp : Type := mkDerefOp { deref_id : ColumnId }.

(** Modelled from the spec: [ex.Expression], whose module is outside the
    sources.  The spec treats it as "an opaque type supporting
    [output_type(schema) -> Dtype] and [column_references -> set of
    ColumnId]"; [expr_repr] stands for the rest of the expression,
    [is_identity] is the flag [ProjectionNode.variables_introduced] reads. *)
Record Expression : Type := mkExpression {
  expr_repr : string;
  column_references : list ColumnId;
  is_identity : bool
}.

(** Modelled from the spec: [ex.Aggregation], opaque but for its column
    references. *)
Record Aggregation : Type := mkAggregation {
  agg_repr : string;
  agg_column_references : list ColumnId
}.

(** Modelled from the spec: [bigframes.core.ordering.OrderingExpression],
    "explicit sort keys"; [referenced_columns] are the column references of
    the scalar expression sorted by. *)
Record OrderingExpression : Type := mkOrderingExpression {
  scalar_expression : Expression;
  descending : bool;
  na_last : bool
}.

Definition referenced_columns (o : OrderingExpression) : list ColumnId :=
  column_references (scalar_expression o).

(** [agg_ops.UnaryWindowOp] and [window.WindowSpec] are opaque payloads of
    [WindowOpNode]. *)
Definition UnaryWindowOp : Type := string.
Definition WindowSpec : Type := string.

#[global] Instance DerefOp_eq_dec : EqDecision DerefOp.
Proof. solve_decision. Defined.
#[global] Instance Expression_eq_dec : EqDecision Expression.
Proof. solve_decision. Defined.
#[global] Instance Aggregation_eq_dec : EqDecision Aggregation.
Proof. solve_decision. Defined.
#[global] Instance OrderingExpression_eq_dec : EqDecision OrderingExpression.
Proof. solve_decision. Defined.

(** ** Data sources *)

(** [class ScanItem(typing.NamedTuple)] *)
Record ScanItem : Type := mkScanItem {
  scan_id : ColumnId;
  scan_dtype : Dtype;
  source_id : string
}.

(** [class ScanList] *)
Record ScanList : Type := mkScanList { items : list ScanItem }.

(** [schemata.ArraySchema]: a tuple of [SchemaItem(name, dtype)]. *)
Definition ArraySchema : Type := list (string * Dtype).

(** [bq.SchemaField], of which [nodes.py] reads the [name]. *)
Record SchemaField : Type := mkSchemaField {
  sf_name : string;
  sf_field_type : string
}.

(** [class GbqTable] *)
Record GbqTable : Type := mkGbqTable {
  project_id : string;
  dataset_id : string;
  table_id : string;
  physical_schema : list SchemaField;
  n_rows : Z;
  is_physical_table : bool;
  cluster_cols : option (list string)
}.

(** [orderings.RowOrdering], of which [nodes.py] reads [is_total_ordering]
    and [is_sequential]. *)
Record RowOrdering : Type := mkRowOrdering {
  ordering_value_columns : list OrderingExpression;
  is_total_ordering : bool;
  is_sequential : bool
}.

(** [class BigqueryDataSource]; [at_time] is a timestamp. *)
Record BigqueryDataSource : Type := mkBigqueryDataSource {
  table : GbqTable;
  at_time : option Z;
  sql_predicate : option string;
  ordering : option RowOrdering
}.

(** [bigframes.session.Session] objects compare by identity. *)
Definition Session : Type := nat.

#[global] Instance ScanItem_eq_dec : EqDecision ScanItem.
Proof. solve_decision. Defined.
#[global] Instance ScanList_eq_dec : EqDecision ScanList.
Proof. solve_decision. Defined.
#[global] Instance SchemaField_eq_dec : EqDecision SchemaField.
Proof. solve_decision. Defined.
#[global] Instance GbqTable_eq_dec : EqDecision GbqTable.
Proof. solve_decision. Defined.
#[global] Instance RowOrdering_eq_dec : EqDecision RowOrdering.
Proof. solve_decision. Defined.
#[global] Instance BigqueryDataSource_eq_dec : EqDecision BigqueryDataSource.
Proof. solve_decision. Defined.

(** ** The node classes *)

(** [typing.Literal["inner", "outer", "left", "right", "cross"]] *)
Inductive JoinType : Type := Inner | Outer | Left | Right | Cross.

#[global] Instance JoinType_eq_dec : EqDecision JoinType.
Proof. solve_decision. Defined.

(** One constructor per concrete subclass of [BigFrameNode]; the arguments
    are the dataclass fields in declaration order, inherited fields first
    ([child] for the subclasses of [UnaryNode]).  [RandomSampleNode.fraction]
    is a Python float, kept as its binary64 bit pattern. *)
Inductive BigFrameNode : Type :=
  | JoinNode (left_child right_child : BigFrameNode)
             (conditions : list (DerefOp * DerefOp)) (type : JoinType)
  | ConcatNode (children : list BigFrameNode)
  | FromRangeNode (start end_ : BigFrameNode) (step : Z)
  | ReadLocalNode (feather_bytes : string) (data_schema : ArraySchema)
                  (local_n_rows : Z) (scan_list : ScanList)
                  (session : option Session)
  | ReadTableNode (source : BigqueryDataSource) (scan_list : ScanList)
                  (table_session : Session)
  | CachedTableNode (source : BigqueryDataSource) (scan_list : ScanList)
                    (table_session : Session) (original_node : BigFrameNode)
  | PromoteOffsetsNode (child : BigFrameNode) (col_id : ColumnId)
  | FilterNode (child : BigFrameNode) (predicate : Expression)
  | OrderByNode (child : BigFrameNode) (by_ : list OrderingExpression)
  | ReversedNode (child : BigFrameNode) (reversed : bool)
  | SelectionNode (child : BigFrameNode)
                  (input_output_pairs : list (DerefOp * ColumnId))
  | ProjectionNode (child : BigFrameNode)
                   (assignments : list (Expression * ColumnId))
  | RowCountNode (child : BigFrameNode)
  | AggregateNode (child : BigFrameNode)
                  (aggregations : list (Aggregation * ColumnId))
                  (by_column_ids : list DerefOp) (dropna : bool)
  | WindowOpNode (child : BigFrameNode) (column_name : DerefOp)
                 (op : UnaryWindowOp) (window_spec : WindowSpec)
                 (output_name : ColumnId)
                 (never_skip_nulls skip_reproject_unsafe : bool)
  | ReprojectOpNode (child : BigFrameNode)
  | RandomSampleNode (child : BigFrameNode) (fraction : Z)
  | ExplodeNode (child : BigFrameNode) (column_ids : list DerefOp).

(** The induction principle that reaches the children of a [ConcatNode]. *)
Section BigFrameNode_ind.
Variable P : BigFrameNode → Prop.
Hypothesis HJoin : ∀ l r c t, P l → P r → P (JoinNode l r c t).
Hypothesis HConcat : ∀ cs, Forall P cs → P (ConcatNode cs).
Hypothesis HFromRange : ∀ s e k, P s → P e → P (FromRangeNode s e k).
Hypothesis HReadLocal : ∀ fb ds n sl s, P (ReadLocalNode fb ds n sl s).
Hypothesis HReadTable : ∀ src sl s, P (ReadTableNode src sl s).
Hypothesis HCached : ∀ src sl s o, P o → P (CachedTableNode src sl s o).
Hypothesis HPromote : ∀ c i, P c → P (PromoteOffsetsNode c i).
Hypothesis HFilter : ∀ c p, P c → P (FilterNode c p).
Hypothesis HOrderBy : ∀ c b, P c → P (OrderByNode c b).
Hypothesis HReversed : ∀ c b, P c → P (ReversedNode c b).
Hypothesis HSelection : ∀ c ps, P c → P (SelectionNode c ps).
Hypothesis HProjection : ∀ c a, P c → P (ProjectionNode c a).
Hypothesis HRowCount : ∀ c, P c → P (RowCountNode c).
Hypothesis HAggregate : ∀ c a b d, P c → P (AggregateNode c a b d).
Hypothesis HWindowOp :
  ∀ c cn o w out ns sr, P c → P (WindowOpNode c cn o w out ns sr).
Hypothesis HReproject : ∀ c, P c → P (ReprojectOpNode c).
Hypothesis HRandomSample : ∀ c f, P c → P (RandomSampleNode c f).
Hypothesis HExplode : ∀ c ids, P c → P (ExplodeNode c ids).

Fixpoint BigFrameNode_ind' (n : BigFrameNode) : P n :=
  match n with
  | JoinNode l r c t =>
      HJoin l r c t (BigFrameNode_ind' l) (BigFrameNode_ind' r)
  | ConcatNode cs =>
      HConcat cs
        ((fix all (ns : list BigFrameNode) : Forall P ns :=
            match ns with
            | [] => Forall_nil_2 P
            | m :: ms => Forall_cons_2 P m ms (BigFrameNode_ind' m) (all ms)
            end) cs)
  | FromRangeNode s e k =>
      HFromRange s e k (BigFrameNode_ind' s) (BigFrameNode_ind' e)
  | ReadLocalNode fb ds n sl s => HReadLocal fb ds n sl s
  | ReadTableNode src sl s => HReadTable src sl s
  | CachedTableNode src sl s o => HCached src sl s o (BigFrameNode_ind' o)
  | PromoteOffsetsNode c i => HPromote c i (BigFrameNode_ind' c)
  | FilterNode c p => HFilter c p (BigFrameNode_ind' c)
  | OrderByNode c b => HOrderBy c b (BigFrameNode_ind' c)
  | ReversedNode c b => HReversed c b (BigFrameNode_ind' c)
  | SelectionNode c ps => HSelection c ps (BigFrameNode_ind' c)
  | ProjectionNode c a => HProjection c a (BigFrameNode_ind' c)
  | RowCountNode c => HRowCount c (BigFrameNode_ind' c)
  | AggregateNode c a b d => HAggregate c a b d (BigFrameNode_ind' c)
  | WindowOpNode c cn o w out ns sr =>
      HWindowOp c cn o w out ns sr (BigFrameNode_ind' c)
  | ReprojectOpNode c => HReproject c (BigFrameNode_ind' c)
  | RandomSampleNode c f => HRandomSample c f (BigFrameNode_ind' c)
  | ExplodeNode c ids => HExplode c ids (BigFrameNode_ind' c)
  end.
End BigFrameNode_ind.

(** Frozen dataclasses, tuples and strings compare by value: [node_eqb] is
    the field-by-field comparison of two nodes of the same class. *)
Fixpoint node_eqb (a b : BigFrameNode) {struct a} : bool :=
  match a, b with
  | JoinNode l1 r1 c1 t1, JoinNode l2 r2 c2 t2 =>
      node_eqb l1 l2 && node_eqb r1 r2 && bool_decide (c1 = c2)
      && bool_decide (t1 = t2)
  | ConcatNode cs1, ConcatNode cs2 =>
      (fix all (ns1 ns2 : list BigFrameNode) : bool :=
         match ns1, ns2 with
         | [], [] => true
         | n1 :: ns1, n2 :: ns2 => node_eqb n1 n2 && all ns1 ns2
         | _, _ => false
         end) cs1 cs2
  | FromRangeNode s1 e1 k1, FromRangeNode s2 e2 k2 =>
      node_eqb s1 s2 && node_eqb e1 e2 && bool_decide (k1 = k2)
  | ReadLocalNode fb1 ds1 n1 sl1 s1, ReadLocalNode fb2 ds2 n2 sl2 s2 =>
      bool_decide (fb1 = fb2) && bool_decide (ds1 = ds2)
      && bool_decide (n1 = n2) && bool_decide (sl1 = sl2)
      && bool_decide (s1 = s2)
  | ReadTableNode src1 sl1 s1, ReadTableNode src2 sl2 s2 =>
      bool_decide (src1 = src2) && bool_decide (sl1 = sl2)
      && bool_decide (s1 = s2)
  | CachedTableNode src1 sl1 s1 o1, CachedTableNode src2 sl2 s2 o2 =>
      bool_decide (src1 = src2) && bool_decide (sl1 = sl2)
      && bool_decide (s1 = s2) && node_eqb o1 o2
  | PromoteOffsetsNode c1 i1, PromoteOffsetsNode c2 i2 =>
      node_eqb c1 c2 && bool_decide (i1 = i2)
  | FilterNode c1 p1, FilterNode c2 p2 =>
      node_eqb c1 c2 && bool_decide (p1 = p2)
  | OrderByNode c1 b1, OrderByNode c2 b2 =>
      node_eqb c1 c2 && bool_decide (b1 = b2)
  | ReversedNode c1 b1, ReversedNode c2 b2 =>
      node_eqb c1 c2 && bool_decide (b1 = b2)
  | SelectionNode c1 p1, SelectionNode c2 p2 =>
      node_eqb c1 c2 && bool_decide (p1 = p2)
  | ProjectionNode c1 a1, ProjectionNode c2 a2 =>
      node_eqb c1 c2 && bool_decide (a1 = a2)
  | RowCountNode c1, RowCountNode c2 => node_eqb c1 c2
  | AggregateNode c1 a1 b1 d1, AggregateNode c2 a2 b2 d2 =>
      node_eqb c1 c2 && bool_decide (a1 = a2) && bool_decide (b1 = b2)
      && bool_decide (d1 = d2)
  | WindowOpNode c1 cn1 o1 w1 out1 ns1 sr1,
    WindowOpNode c2 cn2 o2 w2 out2 ns2 sr2 =>
      node_eqb c1 c2 && bool_decide (cn1 = cn2) && bool_decide (o1 = o2)
      && bool_decide (w1 = w2) && bool_decide (out1 = out2)
      && bool_decide (ns1 = ns2) && bool_decide (sr1 = sr2)
  | ReprojectOpNode c1, ReprojectOpNode c2 => node_eqb c1 c2
  | RandomSampleNode c1 f1, RandomSampleNode c2 f2 =>
      node_eqb c1 c2 && bool_decide (f1 = f2)
  | ExplodeNode c1 i1, ExplodeNode c2 i2 =>
      node_eqb c1 c2 && bool_decide (i1 = i2)
  | _, _ => false
  end.

Lemma node_eqb_eq (a b : BigFrameNode) : node_eqb a b = true ↔ a = b.
Proof.
  revert b. induction a as [ | cs IH | | | | | | | | | | | | | | | | ]
    using BigFrameNode_ind'; intros []; simpl;
    try (split; [discriminate | congruence]);
    rewrite ?andb_true_iff, ?bool_decide_eq_true;
    try (repeat match goal with H : ∀ b, _ ↔ _ |- _ => rewrite H; clear H end;
         split; [intuition congruence | intros [= -> ->]]; tauto).
  all: try (repeat match goal with H : ∀ b, _ ↔ _ |- _ => rewrite H; clear H end;
    intuition congruence).
  rename children into ds.
  revert ds. induction IH as [|c cs Hc _ IHcs]; intros [|d ds];
    try (split; [discriminate | congruence]); [tauto|].
  rewrite andb_true_iff, Hc. specialize (IHcs ds).
  split.
  - intros [-> H]. apply IHcs in H. congruence.
  - intros [= -> ->]. split; [done|]. apply IHcs. done.
Qed.

#[global] Instance BigFrameNode_eq_dec : EqDecision BigFrameNode.
Proof.
  intros a b. destruct (node_eqb a b) eqn:E.
  - left. apply node_eqb_eq, E.
  - right. intros H. apply node_eqb_eq in H. congruence.
Defined.

(** ** Children and structural rewriting *)

(** [child_nodes]: [BigFrameNode] returns the empty tuple (inherited by the
    leaf classes), [UnaryNode] returns [(self.child,)], [JoinNode],
    [ConcatNode] and [FromRangeNode] override it. *)
Definition child_nodes (self : BigFrameNode) : list BigFrameNode :=
  match self with
  | JoinNode left_child right_child _ _ => [left_child; right_child]
  | ConcatNode children => children
  | FromRangeNode start end_ _ => [start; end_]
  | ReadLocalNode _ _ _ _ _ => []
  | ReadTableNode _ _ _ => []
  | CachedTableNode _ _ _ _ => []
  | PromoteOffsetsNode child _ => [child]
  | FilterNode child _ => [child]
  | OrderByNode child _ => [child]
  | ReversedNode child _ => [child]
  | SelectionNode child _ => [child]
  | ProjectionNode child _ => [child]
  | RowCountNode child => [child]
  | AggregateNode child _ _ _ => [child]
  | WindowOpNode child _ _ _ _ _ _ => [child]
  | ReprojectOpNode child => [child]
  | RandomSampleNode child _ => [child]
  | ExplodeNode child _ => [child]
  end.

(** [transform_children]: [dataclasses.replace] with [t] applied to each
    direct child; [LeafNode] returns [self]. *)
Definition transform_children (t : BigFrameNode → BigFrameNode)
    (self : BigFrameNode) : BigFrameNode :=
  match self with
  | JoinNode left_child right_child conditions type =>
      JoinNode (t left_child) (t right_child) conditions type
  | ConcatNode children => ConcatNode (map t children)
  | FromRangeNode start end_ step => FromRangeNode (t start) (t end_) step
  | ReadLocalNode _ _ _ _ _ => self
  | ReadTableNode _ _ _ => self
  | CachedTableNode _ _ _ _ => self
  | PromoteOffsetsNode child col_id => PromoteOffsetsNode (t child) col_id
  | FilterNode child predicate => FilterNode (t child) predicate
  | OrderByNode child by_ => OrderByNode (t child) by_
  | ReversedNode child reversed => ReversedNode (t child) reversed
  | SelectionNode child input_output_pairs =>
      SelectionNode (t child) input_output_pairs
  | ProjectionNode child assignments => ProjectionNode (t child) assignments
  | RowCountNode child => RowCountNode (t child)
  | AggregateNode child aggregations by_column_ids dropna =>
      AggregateNode (t child) aggregations by_column_ids dropna
  | WindowOpNode child column_name op window_spec output_name nsn sru =>
      WindowOpNode (t child) column_name op window_spec output_name nsn sru
  | ReprojectOpNode child => ReprojectOpNode (t child)
  | RandomSampleNode child fraction => RandomSampleNode (t child) fraction
  | ExplodeNode child column_ids => ExplodeNode (t child) column_ids
  end.

(** ** Column pruning *)

(** The tuple comprehension shared by the three table readers:
    [tuple(item for item in self.scan_list.items if item.id in used_cols)]. *)
Definition prune_scan_list (scan_list : ScanList) (used_cols : COLUMN_SET) :
    ScanList :=
  mkScanList (filter (λ item, scan_id item ∈ used_cols) (items scan_list)).

(** [map(lambda x: x.id, itertools.chain.from_iterable(self.conditions))] *)
Definition condition_ids (conditions : list (DerefOp * DerefOp)) :
    list ColumnId :=
  map deref_id (concat (map (λ c, [c.1; c.2]) conditions)).

(** [prune], one branch per class.  The classes that do not override it
    ([ReversedNode], [RowCountNode], [ReprojectOpNode], [RandomSampleNode])
    run [BigFrameNode.prune]:
    [self.transform_children(lambda x: x.prune(used_cols))].  The result is
    the node the method builds; the checks of [__post_init__], which the
    constructors run on it, are modelled for [ConcatNode] only (see
    [new_ConcatNode]), the one class whose construction a property below is
    about. *)
Fixpoint prune (self : BigFrameNode) (used_cols : COLUMN_SET) {struct self} :
    BigFrameNode :=
  match self with
  | JoinNode left_child right_child conditions type =>
      let new_used := used_cols ∪ list_to_set (condition_ids conditions) in
      transform_children (λ x, prune x new_used)
        (JoinNode left_child right_child conditions type)
  | ConcatNode children => ConcatNode children
  | FromRangeNode start end_ step => FromRangeNode start end_ step
  | ReadLocalNode feather_bytes data_schema n_rows scan_list session =>
      let new_scan_list := prune_scan_list scan_list used_cols in
      ReadLocalNode feather_bytes data_schema n_rows new_scan_list session
  | ReadTableNode source scan_list table_session =>
      let new_scan_list := prune_scan_list scan_list used_cols in
      ReadTableNode source new_scan_list table_session
  | CachedTableNode source scan_list table_session original_node =>
      let new_scan_list := prune_scan_list scan_list used_cols in
      CachedTableNode source new_scan_list table_session original_node
  | PromoteOffsetsNode child col_id =>
      if decide (col_id ∉ used_cols) then prune child used_cols
      else
        let new_used := used_cols ∖ {[col_id]} in
        transform_children (λ x, prune x new_used)
          (PromoteOffsetsNode child col_id)
  | FilterNode child predicate =>
      let consumed_ids :=
        used_cols ∪ list_to_set (column_references predicate) in
      let pruned_child := prune child consumed_ids in
      FilterNode pruned_child predicate
  | OrderByNode child by_ =>
      let ordering_cols := concat (map referenced_columns by_) in
      let consumed_ids := used_cols ∪ list_to_set ordering_cols in
      let pruned_child := prune child consumed_ids in
      OrderByNode pruned_child by_
  | ReversedNode child reversed =>
      transform_children (λ x, prune x used_cols) (ReversedNode child reversed)
  | SelectionNode child input_output_pairs =>
      let pruned_selections :=
        filter (λ select, select.2 ∈ used_cols) input_output_pairs in
      let consumed_ids : COLUMN_SET :=
        list_to_set (map (λ i, deref_id i.1) pruned_selections) in
      let pruned_child := prune child consumed_ids in
      SelectionNode pruned_child pruned_selections
  | ProjectionNode child assignments =>
      let pruned_assignments :=
        filter (λ i, i.2 ∈ used_cols) assignments in
      if decide (length pruned_assignments = 0) then prune child used_cols
      else
        let consumed_ids :=
          concat (map (λ i, column_references i.1) pruned_assignments) in
        let pruned_child :=
          prune child (used_cols ∪ list_to_set consumed_ids) in
        ProjectionNode pruned_child pruned_assignments
  | RowCountNode child =>
      transform_children (λ x, prune x used_cols) (RowCountNode child)
  | AggregateNode child aggregations by_column_ids dropna =>
      let by_ids := map deref_id by_column_ids in
      let pruned_aggs := filter (λ agg, agg.2 ∈ used_cols) aggregations in
      let agg_inputs :=
        concat (map (λ agg, agg_column_references agg.1) pruned_aggs) in
      let consumed_ids : COLUMN_SET := list_to_set (by_ids ++ agg_inputs) in
      let pruned_child := prune child consumed_ids in
      AggregateNode pruned_child pruned_aggs by_column_ids dropna
  | WindowOpNode child column_name op window_spec output_name nsn sru =>
      if decide (output_name ∉ used_cols) then child
      else
        let consumed_ids :=
          (used_cols ∖ {[output_name]}) ∪ {[deref_id column_name]} in
        transform_children (λ x, prune x consumed_ids)
          (WindowOpNode child column_name op window_spec output_name nsn sru)
  | ReprojectOpNode child =>
      transform_children (λ x, prune x used_cols) (ReprojectOpNode child)
  | RandomSampleNode child fraction =>
      transform_children (λ x, prune x used_cols)
        (RandomSampleNode child fraction)
  | ExplodeNode child column_ids =>
      transform_children
        (λ x, prune x (used_cols ∪ list_to_set (map deref_id column_ids)))
        (ExplodeNode child column_ids)
  end.

(** ** Exceptions *)

(** The exceptions the modelled code raises. *)
Inductive Exception : Type :=
  | ValueError (msg : string)
  | KeyError (key : string)
  | IndexError
  | TypeError
  | AttributeError.

(** A computation that returns a value or raises. *)
Definition Result (A : Type) : Type := Exception + A.

Definition ok {A} (a : A) : Result A := inr a.
Definition raise {A} (e : Exception) : Result A := inl e.

#[global] Instance Result_bind : MBind Result := λ A B f m,
  match m with
  | inl e => inl e
  | inr a => f a
  end.

(** Evaluation of a comprehension whose element expression may raise: left
    to right, stopping at the first exception. *)
Fixpoint traverse {A B} (f : A → Result B) (l : list A) : Result (list B) :=
  match l with
  | [] => ok []
  | a :: l => b ← f a; bs ← traverse f l; ok (b :: bs)
  end.

Definition succeeds {A} (m : Result A) : Prop := ∃ a, m = inr a.
Definition raises {A} (m : Result A) : Prop := ∃ e, m = inl e.

(** ** Output schema *)

(** [{field.id: field.dtype for field in self.fields}]: a later field of
    the same id replaces an earlier one. *)
Definition dtype_lookup_of (fs : list Field) : gmap ColumnId Dtype :=
  foldl (λ m f, <[field_id f := field_dtype f]> m) ∅ fs.

(** [self._dtype_lookup[id]] *)
Definition get_type_of (fs : list Field) (id : ColumnId) : Result Dtype :=
  match dtype_lookup_of fs !! id with
  | Some t => ok t
  | None => raise (KeyError id)
  end.

(** [arrow_dtype_to_bigframes_dtype(t.pyarrow_dtype.value_type)]: the
    element type of an array dtype; other dtypes have no [pyarrow_dtype]
    with a [value_type]. *)
Definition array_value_type (t : Dtype) : Result Dtype :=
  match t with
  | ARRAY_DTYPE value_type => ok value_type
  | _ => raise AttributeError
  end.

Section Fields.
(** Type resolution of the opaque expressions, aggregations and window
    operators lives outside the sources and is taken as given:
    [dtype_for_etype(ex.output_type(input_types))],
    [dtype_for_etype(agg.output_type(input_types))] and
    [op.output_type(input_type)]. *)
Variable expression_output_type :
  Expression → gmap ColumnId Dtype → Result Dtype.
Variable aggregation_output_type :
  Aggregation → gmap ColumnId Dtype → Result Dtype.
Variable op_output_type : UnaryWindowOp → Dtype → Result Dtype.

(** [fields], one branch per class; the classes that do not override it
    inherit [UnaryNode.fields], [self.child.fields]. *)
Fixpoint fields (self : BigFrameNode) : Result (list Field) :=
  match self with
  | JoinNode left_child right_child _ _ =>
      l ← fields left_child; r ← fields right_child; ok (l ++ r)
  | ConcatNode children =>
      match children with
      | [] => raise IndexError
      | child0 :: _ =>
          fs ← fields child0;
          ok (imap (λ i field,
                      mkField ("column_" +:+ pretty i) (field_dtype field))
                fs)
      end
  | FromRangeNode start _ _ =>
      fs ← fields start;
      match fs with
      | [] => raise IndexError
      | f0 :: _ => ok [mkField "labels" (field_dtype f0)]
      end
  | ReadLocalNode _ _ _ scan_list _ =>
      ok (map (λ it, mkField (scan_id it) (scan_dtype it)) (items scan_list))
  | ReadTableNode _ scan_list _ =>
      ok (map (λ it, mkField (scan_id it) (scan_dtype it)) (items scan_list))
  | CachedTableNode _ scan_list _ _ =>
      ok (map (λ it, mkField (scan_id it) (scan_dtype it)) (items scan_list))
  | PromoteOffsetsNode child col_id =>
      fs ← fields child; ok (fs ++ [mkField col_id INT_DTYPE])
  | FilterNode child _ => fields child
  | OrderByNode child _ => fields child
  | ReversedNode child _ => fields child
  | SelectionNode child input_output_pairs =>
      (* [self.child.get_type] is called once per pair *)
      traverse (λ io, fs ← fields child;
                      t ← get_type_of fs (deref_id io.1);
                      ok (mkField io.2 t))
        input_output_pairs
  | ProjectionNode child assignments =>
      fs ← fields child;
      let input_types := dtype_lookup_of fs in
      new_fields ←
        traverse (λ a, t ← expression_output_type a.1 input_types;
                       ok (mkField a.2 t))
          assignments;
      ok (fs ++ new_fields)
  | RowCountNode _ => ok [mkField "count" INT_DTYPE]
  | AggregateNode child aggregations by_column_ids _ =>
      (* the two generators read the child's fields once per item *)
      by_items ←
        traverse (λ ref, fs ← fields child;
                         t ← get_type_of fs (deref_id ref);
                         ok (mkField (deref_id ref) t))
          by_column_ids;
      agg_items ←
        traverse (λ a, fs ← fields child;
                       t ← aggregation_output_type a.1 (dtype_lookup_of fs);
                       ok (mkField a.2 t))
          aggregations;
      ok (by_items ++ agg_items)
  | WindowOpNode child column_name op _ output_name _ _ =>
      fs ← fields child;
      input_type ← get_type_of fs (deref_id column_name);
      new_item_dtype ← op_output_type op input_type;
      ok (fs ++ [mkField output_name new_item_dtype])
  | ReprojectOpNode child => fields child
  | RandomSampleNode child _ => fields child
  | ExplodeNode child column_ids =>
      fs ← fields child;
      traverse (λ field,
                  if decide (field_id field ∈ map deref_id column_ids)
                  then t ← get_type_of fs (field_id field);
                       v ← array_value_type t;
                       ok (mkField (field_id field) v)
                  else ok field)
        fs
  end.

(** [ids]: [(field.id for field in self.fields)] *)
Definition ids (self : BigFrameNode) : Result (list ColumnId) :=
  fs ← fields self; ok (map field_id fs).

(** [schema]:
    [ArraySchema(tuple(SchemaItem(i.id.name, i.dtype) for i in self.fields))] *)
Definition schema (self : BigFrameNode) : Result ArraySchema :=
  fs ← fields self; ok (map (λ i, (field_id i, field_dtype i)) fs).

(** Modelled from the spec: [ArraySchema.dtypes], whose module is outside
    the sources; the spec calls it the "dtype sequence" of a schema, the
    dtypes of its items in order. *)
Definition dtypes (s : ArraySchema) : list Dtype := map snd s.

(** [child.schema.dtypes] *)
Definition child_schema_dtypes (child : BigFrameNode) : Result (list Dtype) :=
  s ← schema child; ok (dtypes s).

(** [ConcatNode.__post_init__], run by the dataclass constructor on the
    [children] it was given.  [len(set(child_schemas))] is the number of
    distinct elements of [child_schemas]. *)
Definition ConcatNode_post_init (children : list BigFrameNode) :
    Result unit :=
  if decide (length children = 0) then
    raise (ValueError
             "Concat requires at least one input table. Zero provided.")
  else
    child_schemas ← traverse child_schema_dtypes children;
    if negb (bool_decide (length (remove_dups child_schemas) = 1)) then
      raise (ValueError "All inputs must have identical dtypes. {child_schemas}")
    else ok ().

(** The constructor call [ConcatNode(children)]. *)
Definition new_ConcatNode (children : list BigFrameNode) :
    Result BigFrameNode :=
  _ ← ConcatNode_post_init children; ok (ConcatNode children).
End Fields.

(** The column ids of [fields], which never depend on dtype resolution
    (see [fields_field_ids] below). *)
Fixpoint field_ids (self : BigFrameNode) : list ColumnId :=
  match self with
  | JoinNode left_child right_child _ _ =>
      field_ids left_child ++ field_ids right_child
  | ConcatNode children =>
      match children with
      | [] => []
      | child0 :: _ => imap (λ i _, "column_" +:+ pretty i) (field_ids child0)
      end
  | FromRangeNode _ _ _ => ["labels"]
  | ReadLocalNode _ _ _ scan_list _ => map scan_id (items scan_list)
  | ReadTableNode _ scan_list _ => map scan_id (items scan_list)
  | CachedTableNode _ scan_list _ _ => map scan_id (items scan_list)
  | PromoteOffsetsNode child col_id => field_ids child ++ [col_id]
  | FilterNode child _ => field_ids child
  | OrderByNode child _ => field_ids child
  | ReversedNode child _ => field_ids child
  | SelectionNode _ input_output_pairs => map snd input_output_pairs
  | ProjectionNode child assignments => field_ids child ++ map snd assignments
  | RowCountNode _ => ["count"]
  | AggregateNode _ aggregations by_column_ids _ =>
      map deref_id by_column_ids ++ map snd aggregations
  | WindowOpNode child _ _ _ output_name _ _ => field_ids child ++ [output_name]
  | ReprojectOpNode child => field_ids child
  | RandomSampleNode child _ => field_ids child
  | ExplodeNode child _ => field_ids child
  end.

(** ** Row counts of leaves *)

(** [row_count]: [LeafNode] returns [None]; [ReadLocalNode] and
    [ReadTableNode] override it, [CachedTableNode] inherits
    [ReadTableNode.row_count]; the other classes have no such attribute. *)
Definition row_count (self : BigFrameNode) : Result (option Z) :=
  match self with
  | ReadLocalNode _ _ n_rows _ _ => ok (Some n_rows)
  | ReadTableNode source _ _ | CachedTableNode source _ _ _ =>
      if bool_decide (sql_predicate source = None)
         && is_physical_table (table source)
      then ok (Some (n_rows (table source)))
      else ok None
  | _ => raise AttributeError
  end.

(** ** Structural equality and hashing *)

(** The concrete classes. *)
Inductive NodeClass : Type :=
  | cls_JoinNode | cls_ConcatNode | cls_FromRangeNode | cls_ReadLocalNode
  | cls_ReadTableNode | cls_CachedTableNode | cls_PromoteOffsetsNode
  | cls_FilterNode | cls_OrderByNode | cls_ReversedNode | cls_SelectionNode
  | cls_ProjectionNode | cls_RowCountNode | cls_AggregateNode
  | cls_WindowOpNode | cls_ReprojectOpNode | cls_RandomSampleNode
  | cls_ExplodeNode.

#[global] Instance NodeClass_eq_dec : EqDecision NodeClass.
Proof. solve_decision. Defined.

(** [self.__class__] *)
Definition class_of (self : BigFrameNode) : NodeClass :=
  match self with
  | JoinNode _ _ _ _ => cls_JoinNode
  | ConcatNode _ => cls_ConcatNode
  | FromRangeNode _ _ _ => cls_FromRangeNode
  | ReadLocalNode _ _ _ _ _ => cls_ReadLocalNode
  | ReadTableNode _ _ _ => cls_ReadTableNode
  | CachedTableNode _ _ _ _ => cls_CachedTableNode
  | PromoteOffsetsNode _ _ => cls_PromoteOffsetsNode
  | FilterNode _ _ => cls_FilterNode
  | OrderByNode _ _ => cls_OrderByNode
  | ReversedNode _ _ => cls_ReversedNode
  | SelectionNode _ _ => cls_SelectionNode
  | ProjectionNode _ _ => cls_ProjectionNode
  | RowCountNode _ => cls_RowCountNode
  | AggregateNode _ _ _ _ => cls_AggregateNode
  | WindowOpNode _ _ _ _ _ _ _ => cls_WindowOpNode
  | ReprojectOpNode _ => cls_ReprojectOpNode
  | RandomSampleNode _ _ => cls_RandomSampleNode
  | ExplodeNode _ _ => cls_ExplodeNode
  end.

(** [isinstance(other, cls)] for a concrete class [cls]: [other] is of that
    class or of a subclass; among the concrete classes only
    [CachedTableNode(ReadTableNode)] is a subclass of another. *)
Definition isinstance (other : BigFrameNode) (cls : NodeClass) : bool :=
  bool_decide (class_of other = cls)
  || (bool_decide (cls = cls_ReadTableNode)
      && bool_decide (class_of other = cls_CachedTableNode)).

(** The values a dataclass field of a node can hold. *)
Inductive Attr : Type :=
  | ANode (n : BigFrameNode)
  | ANodes (ns : list BigFrameNode)
  | AConditions (c : list (DerefOp * DerefOp))
  | AJoinType (t : JoinType)
  | AInt (z : Z)
  | AFloat (bits : Z)
  | ABool (b : bool)
  | ABytes (b : string)
  | AStr (s : string)
  | ASchema (s : ArraySchema)
  | AScanList (s : ScanList)
  | ASession (s : Session)
  | AOptSession (s : option Session)
  | ASource (s : BigqueryDataSource)
  | AColumnId (c : ColumnId)
  | ADerefOp (d : DerefOp)
  | ADerefOps (d : list DerefOp)
  | AExpression (e : Expression)
  | AOrderings (b : list OrderingExpression)
  | ASelections (p : list (DerefOp * ColumnId))
  | AAssignments (a : list (Expression * ColumnId))
  | AAggregations (a : list (Aggregation * ColumnId)).

#[global] Instance Attr_eq_dec : EqDecision Attr.
Proof. solve_decision. Defined.

(** [_as_tuple]: [tuple(getattr(self, field.name) for field in fields(self))],
    every dataclass field of the node in declaration order, inherited fields
    first.  For [CachedTableNode] these are [source], [scan_list],
    [table_session] and [original_node]. *)
Definition _as_tuple (self : BigFrameNode) : list Attr :=
  match self with
  | JoinNode left_child right_child conditions type =>
      [ANode left_child; ANode right_child; AConditions conditions;
       AJoinType type]
  | ConcatNode children => [ANodes children]
  | FromRangeNode start end_ step => [ANode start; ANode end_; AInt step]
  | ReadLocalNode feather_bytes data_schema n_rows scan_list session =>
      [ABytes feather_bytes; ASchema data_schema; AInt n_rows;
       AScanList scan_list; AOptSession session]
  | ReadTableNode source scan_list table_session =>
      [ASource source; AScanList scan_list; ASession table_session]
  | CachedTableNode source scan_list table_session original_node =>
      [ASource source; AScanList scan_list; ASession table_session;
       ANode original_node]
  | PromoteOffsetsNode child col_id => [ANode child; AColumnId col_id]
  | FilterNode child predicate => [ANode child; AExpression predicate]
  | OrderByNode child by_ => [ANode child; AOrderings by_]
  | ReversedNode child reversed => [ANode child; ABool reversed]
  | SelectionNode child input_output_pairs =>
      [ANode child; ASelections input_output_pairs]
  | ProjectionNode child assignments => [ANode child; AAssignments assignments]
  | RowCountNode child => [ANode child]
  | AggregateNode child aggregations by_column_ids dropna =>
      [ANode child; AAggregations aggregations; ADerefOps by_column_ids;
       ABool dropna]
  | WindowOpNode child column_name op window_spec output_name nsn sru =>
      [ANode child; ADerefOp column_name; AStr op; AStr window_spec;
       AColumnId output_name; ABool nsn; ABool sru]
  | ReprojectOpNode child => [ANode child]
  | RandomSampleNode child fraction => [ANode child; AFloat fraction]
  | ExplodeNode child column_ids => [ANode child; ADerefOps column_ids]
  end.

Section Equality.
(** Python's built-in [hash] on the tuples [_as_tuple] returns. *)
Variable hash : list Attr → Z.

(** [_cached_hash]: [hash(self._as_tuple())] *)
Definition _cached_hash (self : BigFrameNode) : Z := hash (_as_tuple self).

(** [__hash__] *)
Definition __hash__ (self : BigFrameNode) : Z := _cached_hash self.

(** [__eq__].  The shortcut [if self is other: return True] needs no
    branch of its own: an object has the hash and the tuple of itself, so
    the remaining tests return [True] for it as well.  The tuples are
    compared element by element with [==], which is structural equality on
    every field type (on a node it is [__eq__] again, see
    [eq_iff_same_node]). *)
Definition __eq__ (self other : BigFrameNode) : bool :=
  if negb (isinstance other (class_of self)) then false
  else if negb (bool_decide (__hash__ self = __hash__ other)) then false
  else bool_decide (_as_tuple self = _as_tuple other).
End Equality.

(** ** Ibis expressions

    The compilers build expressions of the ibis library.  An expression is
    kept as the tree of operations that built it. *)

(** [ibis.expr.datatypes], with the predicates the compilers test. *)
Inductive IbisType : Type :=
  | dt_Int64 | dt_Float64 | dt_Decimal | dt_Boolean | dt_Binary
  | dt_Timestamp | dt_Date | dt_Time | dt_GeoSpatial | dt_String
  | dt_JSON | dt_Struct | dt_Array.

#[global] Instance IbisType_eq_dec : EqDecision IbisType.
Proof. solve_decision. Defined.

Definition is_numeric (t : IbisType) : bool :=
  match t with dt_Int64 | dt_Float64 | dt_Decimal => true | _ => false end.
Definition is_boolean (t : IbisType) : bool :=
  match t with dt_Boolean => true | _ => false end.
Definition is_binary (t : IbisType) : bool :=
  match t with dt_Binary => true | _ => false end.
Definition is_temporal (t : IbisType) : bool :=
  match t with dt_Timestamp | dt_Date | dt_Time => true | _ => false end.
Definition is_geospatial (t : IbisType) : bool :=
  match t with dt_GeoSpatial => true | _ => false end.
Definition is_string (t : IbisType) : bool :=
  match t with dt_String => true | _ => false end.

(** A column of a table expression: its name and type. *)
Record IbisColumn : Type := mkIbisColumn {
  col_name : string;
  col_type : IbisType
}.

#[global] Instance IbisColumn_eq_dec : EqDecision IbisColumn.
Proof. solve_decision. Defined.

(** [col.get_name()] *)
Definition get_name (col : IbisColumn) : string := col_name col.

(** Value expressions, one constructor per ibis operation used. *)
Inductive Value : Type :=
  | ColumnRef (col : IbisColumn)                  (* [table[name]] *)
  | Literal (s : string)                          (* [literal("...")] *)
  | Cast (arg : Value) (to : IbisType)            (* [.cast(t)] *)
  | AsText (arg : Value)                          (* [.as_text()] *)
  | ToJsonString (arg : Value)                    (* [ToJsonString(arg)] *)
  | FillNull (arg : Value) (replacement : Value)  (* [.fillna], [.fill_null] *)
  | StringReplace (arg : Value) (pattern replacement : string)
  | StringConcat (args : list Value)              (* [.concat(...)], [+] *)
  | Hash (arg : Value)                            (* [.hash()] *)
  | RandomScalar                                  (* [ibis.random()] *)
  | Alias (arg : Value) (name : string)           (* [.name(...)] *)
  | Equals (l r : Value).                         (* [==] *)

(** [value.type()] *)
Fixpoint type_of (value : Value) : IbisType :=
  match value with
  | ColumnRef col => col_type col
  | Literal _ => dt_String
  | Cast _ to => to
  | AsText _ => dt_String
  | ToJsonString _ => dt_String
  | FillNull arg _ => type_of arg
  | StringReplace _ _ _ => dt_String
  | StringConcat _ => dt_String
  | Hash _ => dt_Int64
  | RandomScalar => dt_Float64
  | Alias arg _ => type_of arg
  | Equals _ _ => dt_Boolean
  end.

(** Table expressions: a base relation, a projection that renames columns
    ([(new name, source column)] pairs), and a join. *)
Inductive IbisTable : Type :=
  | BaseTable (name : string) (schema : list IbisColumn)
  | Select (t : IbisTable) (selection : list (string * IbisColumn))
  | Join (left_table right_table : IbisTable) (predicates : list Value)
         (how : JoinType).

(** The columns of a table expression, in order. *)
Fixpoint table_schema (t : IbisTable) : list IbisColumn :=
  match t with
  | BaseTable _ schema => schema
  | Select _ selection =>
      map (λ s, mkIbisColumn s.1 (col_type s.2)) selection
  | Join left_table right_table _ _ =>
      table_schema left_table ++ table_schema right_table
  end.

(** [table.columns]: the column names. *)
Definition table_columns (t : IbisTable) : list string :=
  map col_name (table_schema t).

(** [table[name]]: the column of that name. *)
Definition table_getitem (t : IbisTable) (name : string) : Result IbisColumn :=
  match list_find (λ c, col_name c = name) (table_schema t) with
  | Some (_, c) => ok c
  | None => raise (KeyError name)
  end.

(** Python's [seq[i]] on an [int]: negative indices count from the end. *)
Definition py_getitem {A} (l : list A) (i : Z) : Result A :=
  let n := Z.of_nat (length l) in
  let j := (if bool_decide (i < 0)%Z then i + n else i)%Z in
  if bool_decide (0 ≤ j < n)%Z then
    match l !! Z.to_nat j with
    | Some a => ok a
    | None => raise IndexError
    end
  else raise IndexError.

(** [dict(pairs)] and [{k: v for ...}]: a later pair of the same key
    replaces an earlier one. *)
Definition dict {V} (pairs : list (string * V)) : gmap string V :=
  foldl (λ m kv, <[kv.1 := kv.2]> m) ∅ pairs.

(** [d[key]] *)
Definition dict_getitem {V} (d : gmap string V) (key : string) : Result V :=
  match d !! key with
  | Some v => ok v
  | None => raise (KeyError key)
  end.

(** ** Join keys *)

(** [value_to_join_key] *)
Definition value_to_join_key (value : Value) : Value :=
  let value :=
    if negb (is_string (type_of value)) then Cast value dt_String
    else value in
  FillNull value (Literal "$NULL_SENTINEL$").

(** ** Compiled expressions (module [bigframes.core.compile.compiled]) *)

(** Modelled from the spec: [compiled.UnorderedIR], a compiled relational
    expression "carrying its own output columns"; the module is outside the
    sources. *)
Record UnorderedIR : Type := mkUnorderedIR {
  u_table : IbisTable;
  u_columns : list IbisColumn
}.

(** Modelled from the spec: [compiled.OrderedIR], which carries in addition
    "optional hidden ordering columns, and an explicit [RowOrdering]". *)
Record OrderedIR : Type := mkOrderedIR {
  o_table : IbisTable;
  o_columns : list IbisColumn;
  o_hidden_ordering_columns : list IbisColumn;
  o_ordering : RowOrdering
}.

(** [column_ids] and [_hidden_column_ids]: the names of the columns. *)
Definition u_column_ids (ir : UnorderedIR) : list string :=
  map get_name (u_columns ir).
Definition o_column_ids (ir : OrderedIR) : list string :=
  map get_name (o_columns ir).
Definition o_hidden_column_ids (ir : OrderedIR) : list string :=
  map get_name (o_hidden_ordering_columns ir).

(** A column keeps its name unless [col_id_overrides] has an entry for it. *)
Definition override (col_id_overrides : gmap string string) (name : string) :
    string :=
  default name (col_id_overrides !! name).

(** Modelled from the spec: [UnorderedIR._to_ibis_expr(col_id_overrides)],
    the table of the expression's "visible columns", remapped "into the
    fresh namespace". *)
Definition u_to_ibis_expr (ir : UnorderedIR)
    (col_id_overrides : gmap string string) : IbisTable :=
  Select (u_table ir)
    (map (λ c, (override col_id_overrides (get_name c), c)) (u_columns ir)).

(** Modelled from the spec: [OrderedIR._to_ibis_expr(ordering_mode=
    "unordered", expose_hidden_cols=True, col_id_overrides)], the table of
    the visible columns followed by the hidden ordering columns, remapped. *)
Definition o_to_ibis_expr (ir : OrderedIR)
    (col_id_overrides : gmap string string) : IbisTable :=
  Select (o_table ir)
    (map (λ c, (override col_id_overrides (get_name c), c))
       (o_columns ir ++ o_hidden_ordering_columns ir)).

(** ** The join compiler *)

(** The list comprehension that builds [join_conditions]. *)
Definition build_join_conditions (left_table right_table : IbisTable)
    (conditions : list (Z * Z)) : Result (list Value) :=
  traverse
    (λ c,
       left_name ← py_getitem (table_columns left_table) c.1;
       left_col ← table_getitem left_table left_name;
       right_name ← py_getitem (table_columns right_table) c.2;
       right_col ← table_getitem right_table right_name;
       ok (Equals (value_to_join_key (ColumnRef left_col))
                  (value_to_join_key (ColumnRef right_col))))
    conditions.

(** [[combined_table[mapping[col.get_name()]] for col in columns]] *)
Definition remapped_columns (combined_table : IbisTable)
    (mapping : gmap string string) (columns : list IbisColumn) :
    Result (list IbisColumn) :=
  traverse
    (λ col, name ← dict_getitem mapping (get_name col);
            table_getitem combined_table name)
    columns.

Section Join.
(** [ids.standard_identifiers()] returns a generator; the variable is the
    sequence a fresh generator yields. *)
Variable standard_identifiers : nat → string.

(** [guids.generate_guid(prefix)] returns [prefix] followed by a suffix
    that differs from call to call; the variable is the suffix of the
    [n]-th call, and the number of calls made so far is threaded through
    the functions that generate guids. *)
Variable guid_suffix : nat → string.

Definition generate_guid (prefix : string) (calls : nat) : string * nat :=
  (prefix +:+ guid_suffix calls, S calls).

(** [orderings.join_orderings], outside the sources. *)
Variable join_orderings :
  RowOrdering → RowOrdering → gmap string string → gmap string string →
  bool → RowOrdering.

(** [zip(column_ids, id_generator)]: [zip] stops when [column_ids] is
    exhausted, before it draws from the generator again, so exactly
    [len(column_ids)] identifiers are consumed.  [drawn] is the number of
    identifiers drawn before. *)
Definition zip_identifiers (column_ids : list string) (drawn : nat) :
    list (string * string) * nat :=
  (zip column_ids
     (map standard_identifiers (seq drawn (length column_ids))),
   drawn + length column_ids).

(** [{id: guids.generate_guid("hidden_") for id in hidden_column_ids}] *)
Fixpoint hidden_mapping (hidden_column_ids : list string) (calls : nat) :
    list (string * string) * nat :=
  match hidden_column_ids with
  | [] => ([], calls)
  | id :: rest =>
      let '(g, calls) := generate_guid "hidden_" calls in
      let '(pairs, calls) := hidden_mapping rest calls in
      ((id, g) :: pairs, calls)
  end.

(** [join_by_column_unordered] *)
Definition join_by_column_unordered (left_ir right_ir : UnorderedIR)
    (conditions : list (Z * Z)) (type : JoinType) : Result UnorderedIR :=
  let '(l_pairs, drawn) := zip_identifiers (u_column_ids left_ir) 0 in
  let l_mapping := dict l_pairs in
  let '(r_pairs, _) := zip_identifiers (u_column_ids right_ir) drawn in
  let r_mapping := dict r_pairs in
  let left_table := u_to_ibis_expr left_ir l_mapping in
  let right_table := u_to_ibis_expr right_ir r_mapping in
  join_conditions ← build_join_conditions left_table right_table conditions;
  let combined_table := Join left_table right_table join_conditions type in
  l_columns ← remapped_columns combined_table l_mapping (u_columns left_ir);
  r_columns ← remapped_columns combined_table r_mapping (u_columns right_ir);
  let columns := l_columns ++ r_columns in
  ok (mkUnorderedIR combined_table columns).

(** [join_by_column_ordered]; [calls] counts the guids generated before
    the call, the second component of the result those generated after. *)
Definition join_by_column_ordered (left_ir right_ir : OrderedIR)
    (conditions : list (Z * Z)) (type : JoinType) (calls : nat) :
    Result OrderedIR * nat :=
  let '(l_pairs, drawn) := zip_identifiers (o_column_ids left_ir) 0 in
  let l_value_mapping := dict l_pairs in
  let '(r_pairs, _) := zip_identifiers (o_column_ids right_ir) drawn in
  let r_value_mapping := dict r_pairs in
  let '(l_hidden_pairs, calls) :=
    hidden_mapping (o_hidden_column_ids left_ir) calls in
  let l_hidden_mapping := dict l_hidden_pairs in
  let '(r_hidden_pairs, calls) :=
    hidden_mapping (o_hidden_column_ids right_ir) calls in
  let r_hidden_mapping := dict r_hidden_pairs in
  (* [{**value_mapping, **hidden_mapping}]: the hidden entry wins *)
  let l_mapping := l_hidden_mapping ∪ l_value_mapping in
  let r_mapping := r_hidden_mapping ∪ r_value_mapping in
  let left_table := o_to_ibis_expr left_ir l_mapping in
  let right_table := o_to_ibis_expr right_ir r_mapping in
  (join_conditions ←
     build_join_conditions left_table right_table conditions;
   let combined_table := Join left_table right_table join_conditions type in
   let ordering :=
     join_orderings (o_ordering left_ir) (o_ordering right_ir)
       l_mapping r_mapping (negb (bool_decide (type = Right))) in
   l_columns ← remapped_columns combined_table l_mapping (o_columns left_ir);
   r_columns ← remapped_columns combined_table r_mapping (o_columns right_ir);
   let columns := l_columns ++ r_columns in
   l_hidden ← remapped_columns combined_table l_hidden_mapping
                (o_hidden_ordering_columns left_ir);
   r_hidden ← remapped_columns combined_table r_hidden_mapping
                (o_hidden_ordering_columns right_ir);
   let hidden_ordering_columns := l_hidden ++ r_hidden in
   ok (mkOrderedIR combined_table columns hidden_ordering_columns ordering),
   calls).

(** ** The default ordering *)

(** The value [_convert_to_nonnull_string] binds to [result]: the text form
    of the column, by its type. *)
Definition text_form (column : IbisColumn) : Value :=
  let col_type := col_type column in
  if is_numeric col_type || is_boolean col_type || is_binary col_type
     || is_temporal col_type
  then Cast (ColumnRef column) dt_String
  else if is_geospatial col_type then AsText (ColumnRef column)
  else if is_string col_type then ColumnRef column
  else ToJsonString (ColumnRef column).

(** [_convert_to_nonnull_string]; [fill_null] and [fillna] are two names of
    one operation. *)
Definition _convert_to_nonnull_string (column : IbisColumn) : Value :=
  let result := text_form column in
  let escaped := StringReplace (FillNull result (Literal "")) "\" "\\" in
  StringConcat [Literal "\"; escaped].

(** [full_row_str]: for more than one value the first, concatenated with
    the values after it; otherwise [str_values[0]]. *)
Definition full_row_str_of (str_values : list Value) : Result Value :=
  if bool_decide (1 < length str_values) then
    first ← py_getitem str_values 0;
    ok (StringConcat (first :: drop 1 str_values))
  else py_getitem str_values 0.

(** [gen_default_ordering]; [calls] as in [join_by_column_ordered]. *)
Definition gen_default_ordering (table : IbisTable) (use_double_hash : bool)
    (calls : nat) : Result (list Value) * nat :=
  let '(ordering_hash_part, calls) :=
    generate_guid "bigframes_ordering_" calls in
  let '(ordering_hash_part2, calls) :=
    generate_guid "bigframes_ordering_" calls in
  let '(ordering_rand_part, calls) :=
    generate_guid "bigframes_ordering_" calls in
  (columns ← traverse (table_getitem table) (table_columns table);
   let str_values := map _convert_to_nonnull_string columns in
   full_row_str ← full_row_str_of str_values;
   let full_row_hash := Alias (Hash full_row_str) ordering_hash_part in
   let full_row_hash_p2 :=
     Alias (Hash (StringConcat [full_row_str; Literal "_"]))
       ordering_hash_part2 in
   let random_value := Alias RandomScalar ordering_rand_part in
   let order_values :=
     if use_double_hash
     then [full_row_hash; full_row_hash_p2; random_value]
     else [full_row_hash; random_value] in
   ok order_values,
   calls).
End Join.


(** ** Evaluation of value expressions

    What the warehouse computes for an expression on one row of the relation
    it is evaluated over.  A value is [None] for SQL's NULL. *)
Inductive Scalar : Type :=
  | SStr (s : string)
  | SInt (z : Z)
  | SFloat (bits : Z)
  | SBool (b : bool)
  | SOther (repr : string).

#[global] Instance Scalar_eq_dec : EqDecision Scalar.
Proof. solve_decision. Defined.

(** [REPLACE(s, pattern, replacement)]: every occurrence of [pattern], left
    to right and without overlap; [skip] is the number of characters still
    to be dropped from the occurrence just replaced. *)
Fixpoint replace_from (pattern replacement : string) (skip : nat)
    (s : string) : string :=
  match s with
  | EmptyString => EmptyString
  | String c s' =>
      match skip with
      | S k => replace_from pattern replacement k s'
      | O =>
          if bool_decide (pattern ≠ "") && String.prefix pattern s
          then replacement +:+
               replace_from pattern replacement (String.length pattern - 1) s'
          else String c (replace_from pattern replacement 0 s')
      end
  end.

Definition str_replace (s pattern replacement : string) : string :=
  replace_from pattern replacement 0 s.

(** Doubling of every backslash. *)
Fixpoint escape_backslashes (s : string) : string :=
  match s with
  | EmptyString => EmptyString
  | String c s' =>
      if bool_decide (c = "\"%char) then "\\" +:+ escape_backslashes s'
      else String c (escape_backslashes s')
  end.

Section Evaluation.
(** The text a string function reads from a value that is not a string. *)
Variable render : Scalar → string.
(** [ST_ASTEXT] and [TO_JSON_STRING], applied to a value or to NULL. *)
Variable st_astext : option Scalar → option Scalar.
Variable to_json_string : option Scalar → option Scalar.
(** [FARM_FINGERPRINT] *)
Variable farm_fingerprint : string → Z.
(** The values of the columns of the row, by name, and the value [RAND()]
    draws for the row. *)
Variable row : string → option Scalar.
Variable rand : Z.

Definition str_of (x : Scalar) : string :=
  match x with
  | SStr s => s
  | _ => render x
  end.

(** [CAST]: NULL stays NULL; a cast to text yields the text of the value. *)
Definition cast_scalar (to : IbisType) (x : Scalar) : Scalar :=
  if is_string to then SStr (str_of x) else x.

(** [CONCAT] of evaluated arguments: NULL as soon as one argument is. *)
Fixpoint concat_strings (xs : list (option Scalar)) : option string :=
  match xs with
  | [] => Some ""
  | x :: xs => s ← x; rest ← concat_strings xs; Some (str_of s +:+ rest)
  end.

Fixpoint eval (value : Value) : option Scalar :=
  match value with
  | ColumnRef col => row (col_name col)
  | Literal s => Some (SStr s)
  | Cast arg to => x ← eval arg; Some (cast_scalar to x)
  | AsText arg => st_astext (eval arg)
  | ToJsonString arg => to_json_string (eval arg)
  | FillNull arg replacement =>
      match eval arg with
      | Some x => Some x
      | None => eval replacement
      end
  | StringReplace arg pattern replacement =>
      x ← eval arg; Some (SStr (str_replace (str_of x) pattern replacement))
  | StringConcat args => s ← concat_strings (map eval args); Some (SStr s)
  | Hash arg => x ← eval arg; Some (SInt (farm_fingerprint (str_of x)))
  | RandomScalar => Some (SFloat rand)
  | Alias arg _ => eval arg
  | Equals l r =>
      (* a comparison with NULL is NULL *)
      x ← eval l; y ← eval r; Some (SBool (bool_decide (x = y)))
  end.

(** A pair of rows is in the join when every predicate is TRUE on it. *)
Definition join_matches (predicates : list Value) : bool :=
  forallb (λ p, bool_decide (eval p = Some (SBool true))) predicates.

(** The text of a column in the row fingerprint: its text form, the empty
    text for NULL. *)
Definition nonnull_text (column : IbisColumn) : string :=
  match eval (text_form column) with
  | Some x => str_of x
  | None => ""
  end.
(** The row fingerprint: for each column in order, a backslash followed by
    the text of the column with its backslashes doubled. *)
Definition row_fingerprint (columns : list IbisColumn) : string :=
  foldr (λ c rest, ("\" +:+ escape_backslashes (nonnull_text c)) +:+ rest) ""
    columns.

End Evaluation.

(** ** Auxiliary definitions of the properties *)

(** The trees in which pruning meets no [WindowOpNode]: it does not descend
    into a [ConcatNode] or a [FromRangeNode], nor into the original of a
    [CachedTableNode]. *)
Fixpoint window_free (self : BigFrameNode) : bool :=
  match self with
  | JoinNode left_child right_child _ _ =>
      window_free left_child && window_free right_child
  | ConcatNode _ | FromRangeNode _ _ _ => true
  | ReadLocalNode _ _ _ _ _ | ReadTableNode _ _ _
  | CachedTableNode _ _ _ _ => true
  | WindowOpNode _ _ _ _ _ _ _ => false
  | PromoteOffsetsNode child _ | FilterNode child _ | OrderByNode child _
  | ReversedNode child _ | SelectionNode child _ | ProjectionNode child _
  | RowCountNode child | AggregateNode child _ _ _ | ReprojectOpNode child
  | RandomSampleNode child _ | ExplodeNode child _ => window_free child
  end.

(** Indices in range, counted from either end. *)
Definition valid_index {A} (l : list A) (i : Z) : Prop :=
  (- Z.of_nat (length l) ≤ i < Z.of_nat (length l))%Z.

(** [[table[col] for col in table.columns]]: for each column name in
    order, the column [table[name]] selects. *)
Definition selected_columns (t : IbisTable) : list IbisColumn :=
  omap (λ name, snd <$> list_find (λ c, col_name c = name) (table_schema t))
    (table_columns t).

(** The columns [columns] under the fresh names [names 0], [names 1], ...:
    the types are kept, position by position. *)
Definition fresh_columns (names : nat → string) (columns : list IbisColumn) :
    list IbisColumn :=
  imap (λ i c, mkIbisColumn (names i) (col_type c)) columns.

(** The guid the [n]-th call of [generate_guid("hidden_")] returns. *)
Definition hidden_guid (guid_suffix : nat → string) (n : nat) : string :=
  "hidden_" +:+ guid_suffix n.

(** The name the [n]-th call of [generate_guid("bigframes_ordering_")]
    returns. *)
Definition ordering_guid (guid_suffix : nat → string) (n : nat) : string :=
  "bigframes_ordering_" +:+ guid_suffix n.

(** ** Example trees *)

(** A local table with the two columns [a] and [b]. *)
Definition example_leaf : BigFrameNode :=
  ReadLocalNode "" [("a", INT_DTYPE); ("b", INT_DTYPE)] 3
    (mkScanList [mkScanItem "a" INT_DTYPE "a"; mkScanItem "b" INT_DTYPE "b"])
    None.

(** The same table after pruning against [{a}]. *)
Definition example_leaf_a : BigFrameNode :=
  ReadLocalNode "" [("a", INT_DTYPE); ("b", INT_DTYPE)] 3
    (mkScanList [mkScanItem "a" INT_DTYPE "a"]) None.

(** A window operation over column [a] of the table, with output [w]. *)
Definition example_window : BigFrameNode :=
  WindowOpNode example_leaf (mkDerefOp "a") "sum" "unbound" "w" false false.

(** A table source and a scan list for the examples. *)
Definition example_source : BigqueryDataSource :=
  mkBigqueryDataSource
    (mkGbqTable "project" "dataset" "table" [mkSchemaField "a" "INTEGER"]
       3 true None)
    None None None.

Definition example_scan_list : ScanList :=
  mkScanList [mkScanItem "a" INT_DTYPE "a"].

(** The scenario of the spec: a left join of a table with the column [x]
    and a table with the column [y] on [x = y]. *)
Definition example_leaf_of (column : ColumnId) (dtype : Dtype) : BigFrameNode :=
  ReadLocalNode "" [(column, dtype)] 3
    (mkScanList [mkScanItem column dtype column]) None.

Definition example_join : BigFrameNode :=
  JoinNode (example_leaf_of "x" INT_DTYPE) (example_leaf_of "y" INT_DTYPE)
    [(mkDerefOp "x", mkDerefOp "y")] Left.

(** A projection over a filtered join of the two example tables. *)
Definition example_projection : BigFrameNode :=
  ProjectionNode
    (FilterNode example_join (mkExpression "x > 0" ["x"] false))
    [(mkExpression "x + y" ["x"; "y"] false, "z")].

(** A type resolution under which no expression has a type. *)
Definition no_output_type {A B} (a : A) (b : B) : Result Dtype :=
  raise TypeError.

(** ** Example inputs of the join compilers *)

(** The generator of [standard_identifiers]: [col_0], [col_1], ... *)
Definition example_identifiers (n : nat) : string := "col_" +:+ pretty n.

(** Guid suffixes that differ from call to call. *)
Definition example_guid_suffix (n : nat) : string := pretty n.

(** The columns of an ordering, renamed. *)
Definition remap_ordering (mapping : gmap string string)
    (o : OrderingExpression) : OrderingExpression :=
  mkOrderingExpression
    (mkExpression (expr_repr (scalar_expression o))
       (map (override mapping) (column_references (scalar_expression o)))
       (is_identity (scalar_expression o)))
    (descending o) (na_last o).

(** An instance of [join_orderings] for the examples: the remapped keys of
    the dominating side come first, those of the other side break its
    ties. *)
Definition example_join_orderings (left_ordering right_ordering : RowOrdering)
    (l_mapping r_mapping : gmap string string) (left_order_dominates : bool) :
    RowOrdering :=
  let l := map (remap_ordering l_mapping)
             (ordering_value_columns left_ordering) in
  let r := map (remap_ordering r_mapping)
             (ordering_value_columns right_ordering) in
  mkRowOrdering (if left_order_dominates then l ++ r else r ++ l)
    (is_total_ordering left_ordering && is_total_ordering right_ordering)
    false.

Definition example_left_table : IbisTable :=
  BaseTable "orders"
    [mkIbisColumn "k" dt_Int64; mkIbisColumn "a" dt_String;
     mkIbisColumn "row" dt_Int64].

Definition example_right_table : IbisTable :=
  BaseTable "items"
    [mkIbisColumn "k" dt_Int64; mkIbisColumn "b" dt_Float64;
     mkIbisColumn "pos" dt_Int64].

(** Two compiled expressions that both have a column [k]. *)
Definition example_left_unordered : UnorderedIR :=
  mkUnorderedIR example_left_table
    [mkIbisColumn "k" dt_Int64; mkIbisColumn "a" dt_String].

Definition example_right_unordered : UnorderedIR :=
  mkUnorderedIR example_right_table
    [mkIbisColumn "k" dt_Int64; mkIbisColumn "b" dt_Float64].

Definition example_order_by (column : string) : RowOrdering :=
  mkRowOrdering
    [mkOrderingExpression (mkExpression column [column] true) false true]
    true false.

Definition example_left_ordered : OrderedIR :=
  mkOrderedIR example_left_table
    [mkIbisColumn "k" dt_Int64; mkIbisColumn "a" dt_String]
    [mkIbisColumn "row" dt_Int64] (example_order_by "row").

Definition example_right_ordered : OrderedIR :=
  mkOrderedIR example_right_table
    [mkIbisColumn "k" dt_Int64; mkIbisColumn "b" dt_Float64]
    [mkIbisColumn "pos" dt_Int64] (example_order_by "pos").

(** ** Cost metrics and ordering flags *)

(** A fixed number of variable to assume for overhead on some operations *)
Definition OVERHEAD_VARIABLES : nat := 5.

(** [relation_ops_created]: [1] unless overridden. *)
Definition relation_ops_created (self : BigFrameNode) : nat :=
  match self with
  | ReadTableNode _ _ _ | CachedTableNode _ _ _ _ => 3
  | PromoteOffsetsNode _ _ => 2
  | OrderByNode _ _ | ReversedNode _ _ | ReprojectOpNode _ => 0
  | WindowOpNode _ _ _ _ _ _ skip_reproject_unsafe =>
      if skip_reproject_unsafe then 0 else 4
  | ExplodeNode _ _ => 3
  | _ => 1
  end.

(** [joins]: [False] but for [JoinNode]. *)
Definition joins (self : BigFrameNode) : bool :=
  match self with
  | JoinNode _ _ _ _ => true
  | _ => false
  end.

(** [order_ambiguous]: abstract in [BigFrameNode]; [UnaryNode] returns the
    child's, [AggregateNode] overrides it. *)
Fixpoint order_ambiguous (self : BigFrameNode) : bool :=
  match self with
  | JoinNode _ _ _ _ => true
  | ConcatNode children => existsb order_ambiguous children
  | FromRangeNode _ _ _ => false
  | ReadLocalNode _ _ _ _ _ => false
  | ReadTableNode source _ _ | CachedTableNode source _ _ _ =>
      match ordering source with
      | None => true
      | Some o => negb (is_total_ordering o)
      end
  | AggregateNode _ _ _ _ => false
  | PromoteOffsetsNode child _ | FilterNode child _ | OrderByNode child _
  | ReversedNode child _ | SelectionNode child _ | ProjectionNode child _
  | RowCountNode child | WindowOpNode child _ _ _ _ _ _
  | ReprojectOpNode child | RandomSampleNode child _ | ExplodeNode child _ =>
      order_ambiguous child
  end.

(** [explicitly_ordered]: abstract in [BigFrameNode]; [UnaryNode] returns
    the child's, [OrderByNode] and [AggregateNode] override it. *)
Fixpoint explicitly_ordered (self : BigFrameNode) : bool :=
  match self with
  | JoinNode _ _ _ _ => false
  | ConcatNode _ => true
  | FromRangeNode _ _ _ => true
  | ReadLocalNode _ _ _ _ _ => true
  | ReadTableNode source _ _ | CachedTableNode source _ _ _ =>
      bool_decide (ordering source ≠ None)
  | OrderByNode _ _ => true
  | AggregateNode _ _ _ _ => true
  | PromoteOffsetsNode child _ | FilterNode child _
  | ReversedNode child _ | SelectionNode child _ | ProjectionNode child _
  | RowCountNode child | WindowOpNode child _ _ _ _ _ _
  | ReprojectOpNode child | RandomSampleNode child _ | ExplodeNode child _ =>
      explicitly_ordered child
  end.

(** [supports_fast_head], a property of the leaf classes. *)
Definition supports_fast_head (self : BigFrameNode) : Result bool :=
  match self with
  | ReadLocalNode _ _ _ _ _ => ok true
  | ReadTableNode source _ _ | CachedTableNode source _ _ _ =>
      ok (match ordering source with
          | None => false
          | Some o => is_sequential o
          end)
  | _ => raise AttributeError
  end.

(** [total_joins]: [int(self.joins)] plus the sum over [child_nodes]. *)
Fixpoint total_joins (self : BigFrameNode) : nat :=
  (if joins self then 1 else 0)
  + sum_list
      match self with
      | JoinNode left_child right_child _ _ =>
          [total_joins left_child; total_joins right_child]
      | ConcatNode children => map total_joins children
      | FromRangeNode start end_ _ => [total_joins start; total_joins end_]
      | ReadLocalNode _ _ _ _ _ | ReadTableNode _ _ _
      | CachedTableNode _ _ _ _ => []
      | PromoteOffsetsNode child _ | FilterNode child _ | OrderByNode child _
      | ReversedNode child _ | SelectionNode child _ | ProjectionNode child _
      | RowCountNode child | AggregateNode child _ _ _
      | WindowOpNode child _ _ _ _ _ _ | ReprojectOpNode child
      | RandomSampleNode child _ | ExplodeNode child _ => [total_joins child]
      end.

(** [total_relational_ops]: [self.relation_ops_created] plus the sum over
    [child_nodes]. *)
Fixpoint total_relational_ops (self : BigFrameNode) : nat :=
  relation_ops_created self
  + sum_list
      match self with
      | JoinNode left_child right_child _ _ =>
          [total_relational_ops left_child; total_relational_ops right_child]
      | ConcatNode children => map total_relational_ops children
      | FromRangeNode start end_ _ =>
          [total_relational_ops start; total_relational_ops end_]
      | ReadLocalNode _ _ _ _ _ | ReadTableNode _ _ _
      | CachedTableNode _ _ _ _ => []
      | PromoteOffsetsNode child _ | FilterNode child _ | OrderByNode child _
      | ReversedNode child _ | SelectionNode child _ | ProjectionNode child _
      | RowCountNode child | AggregateNode child _ _ _
      | WindowOpNode child _ _ _ _ _ _ | ReprojectOpNode child
      | RandomSampleNode child _ | ExplodeNode child _ =>
          [total_relational_ops child]
      end.

Section Metrics.
Variable expression_output_type :
  Expression → gmap ColumnId Dtype → Result Dtype.
Variable aggregation_output_type :
  Aggregation → gmap ColumnId Dtype → Result Dtype.
Variable op_output_type : UnaryWindowOp → Dtype → Result Dtype.

Local Abbreviation schema_of :=
  (schema expression_output_type aggregation_output_type op_output_type).

(** [variables_introduced]; [len(self.schema.items)] is the number of
    fields. *)
Definition variables_introduced (self : BigFrameNode) : Result nat :=
  match self with
  | JoinNode _ _ _ _ => ok OVERHEAD_VARIABLES
  | ConcatNode _ | FromRangeNode _ _ _ =>
      s ← schema_of self; ok (length s + OVERHEAD_VARIABLES)
  | ReadLocalNode _ _ _ scan_list _ | ReadTableNode _ scan_list _
  | CachedTableNode _ scan_list _ _ => ok (length (items scan_list) + 1)
  | PromoteOffsetsNode _ _ | FilterNode _ _ | RowCountNode _
  | WindowOpNode _ _ _ _ _ _ _ | RandomSampleNode _ _ => ok 1
  | OrderByNode _ _ | ReversedNode _ _ | SelectionNode _ _
  | ReprojectOpNode _ => ok 0
  | ProjectionNode _ assignments =>
      (* ignore passthrough expressions *)
      ok (length (filter (λ i, is_identity i.1 = false) assignments))
  | AggregateNode _ aggregations by_column_ids _ =>
      ok (length aggregations + length by_column_ids)
  | ExplodeNode _ column_ids => ok (length column_ids + 1)
  end.

(** [total_variables]: [self.variables_introduced] plus the sum over
    [child_nodes]. *)
Fixpoint total_variables (self : BigFrameNode) : Result nat :=
  v ← variables_introduced self;
  cs ← match self with
       | JoinNode left_child right_child _ _ =>
           l ← total_variables left_child;
           r ← total_variables right_child; ok [l; r]
       | ConcatNode children => traverse total_variables children
       | FromRangeNode start end_ _ =>
           s ← total_variables start; e ← total_variables end_; ok [s; e]
       | ReadLocalNode _ _ _ _ _ | ReadTableNode _ _ _
       | CachedTableNode _ _ _ _ => ok []
       | PromoteOffsetsNode child _ | FilterNode child _
       | OrderByNode child _ | ReversedNode child _ | SelectionNode child _
       | ProjectionNode child _ | RowCountNode child
       | AggregateNode child _ _ _ | WindowOpNode child _ _ _ _ _ _
       | ReprojectOpNode child | RandomSampleNode child _
       | ExplodeNode child _ => c ← total_variables child; ok [c]
       end;
  ok (v + sum_list cs).

(** [planning_complexity] *)
Definition planning_complexity (self : BigFrameNode) : Result nat :=
  v ← total_variables self;
  ok (v * total_relational_ops self * (1 + total_joins self)).
End Metrics.

(** ** Sessions and roots *)

(** The body of [BigFrameNode.session], given the sessions of the child
    nodes: the sessions that are not [None] are collected; more than one
    distinct session raises, one is returned, none gives [None]. *)
Definition combine_sessions (child_sessions : list (option Session)) :
    Result (option Session) :=
  let sessions := omap id child_sessions in
  let unique_sessions := length (remove_dups sessions) in
  if bool_decide (1 < unique_sessions) then
    raise (ValueError "Cannot use combine sources from multiple sessions.")
  else if bool_decide (unique_sessions = 1) then
    match sessions with
    | s :: _ => ok (Some s)
    | [] => raise IndexError
    end
  else ok None.

(** [session]: the field of a [ReadLocalNode], the [table_session] of a
    [ReadTableNode], [BigFrameNode.session] for the other classes. *)
Fixpoint session (self : BigFrameNode) : Result (option Session) :=
  match self with
  | ReadLocalNode _ _ _ _ session => ok session
  | ReadTableNode _ _ table_session
  | CachedTableNode _ _ table_session _ => ok (Some table_session)
  | JoinNode left_child right_child _ _ =>
      l ← session left_child; r ← session right_child;
      combine_sessions [l; r]
  | ConcatNode children =>
      cs ← traverse session children; combine_sessions cs
  | FromRangeNode start end_ _ =>
      s ← session start; e ← session end_; combine_sessions [s; e]
  | PromoteOffsetsNode child _ | FilterNode child _ | OrderByNode child _
  | ReversedNode child _ | SelectionNode child _ | ProjectionNode child _
  | RowCountNode child | AggregateNode child _ _ _
  | WindowOpNode child _ _ _ _ _ _ | ReprojectOpNode child
  | RandomSampleNode child _ | ExplodeNode child _ =>
      c ← session child; combine_sessions [c]
  end.

(** [roots]: a leaf and a [FromRangeNode] return [{self}], the other
    classes the union of the roots of the child nodes.  A set of nodes is
    kept as a list without duplicates. *)
Fixpoint roots (self : BigFrameNode) : list BigFrameNode :=
  match self with
  | FromRangeNode _ _ _ | ReadLocalNode _ _ _ _ _ | ReadTableNode _ _ _
  | CachedTableNode _ _ _ _ => [self]
  | JoinNode left_child right_child _ _ =>
      remove_dups (concat [roots left_child; roots right_child])
  | ConcatNode children => remove_dups (concat (map roots children))
  | PromoteOffsetsNode child _ | FilterNode child _ | OrderByNode child _
  | ReversedNode child _ | SelectionNode child _ | ProjectionNode child _
  | RowCountNode child | AggregateNode child _ _ _
  | WindowOpNode child _ _ _ _ _ _ | ReprojectOpNode child
  | RandomSampleNode child _ | ExplodeNode child _ =>
      remove_dups (concat [roots child])
  end.

(** ** Construction checks *)

(** What a check ends in when it does not pass: a failed [assert], or an
    exception raised by the check or by what it evaluates. *)
Inductive Failure : Type :=
  | AssertionError (msg : string)
  | Raised (e : Exception).

Section Checks.
Variable expression_output_type :
  Expression → gmap ColumnId Dtype → Result Dtype.
Variable aggregation_output_type :
  Aggregation → gmap ColumnId Dtype → Result Dtype.
Variable op_output_type : UnaryWindowOp → Dtype → Result Dtype.

Local Abbreviation ids_of :=
  (ids expression_output_type aggregation_output_type op_output_type).
Local Abbreviation fields_of :=
  (fields expression_output_type aggregation_output_type op_output_type).

(** [JoinNode.__post_init__]:
    [assert not (set(self.left_child.ids) & set(self.right_child.ids))] *)
Definition JoinNode_post_init (left_child right_child : BigFrameNode) :
    Failure + unit :=
  match ids_of left_child with
  | inl e => inl (Raised e)
  | inr left_ids =>
      match ids_of right_child with
      | inl e => inl (Raised e)
      | inr right_ids =>
          if bool_decide
               ((list_to_set left_ids ∩ list_to_set right_ids : gset ColumnId)
                = ∅)
          then inr ()
          else inl (AssertionError "Join ids collide")
      end
  end.

(** [expression.output_type(input_types)], of which
    [ProjectionNode.__post_init__] discards the result. *)
Variable Etype : Type.
Variable output_type : Expression → gmap ColumnId Dtype → Result Etype.

End Checks.

Section ReadTableCheck.
(** The text an f-string renders for a scan list and for a physical
    schema. *)
Variable format_scan_list : ScanList → string.
Variable format_physical_schema : list SchemaField → string.

(** [ReadTableNode.__post_init__], which [CachedTableNode] inherits. *)
Definition ReadTableNode_post_init (source : BigqueryDataSource)
    (scan_list : ScanList) : Result unit :=
  let physical_names : gset string :=
    list_to_set (map sf_name (physical_schema (table source))) in
  if negb (bool_decide
             ((list_to_set (map source_id (items scan_list)) : gset string)
              ⊆ physical_names))
  then raise (ValueError
                ("Requested schema " +:+ format_scan_list scan_list
                 +:+ " cannot be derived from table schemal "
                 +:+ format_physical_schema (physical_schema (table source))))
  else ok ().
End ReadTableCheck.

(** ** Table descriptors *)

(** [bq.Table], of which [GbqTable.from_table] reads these attributes. *)
Record BqTable : Type := mkBqTable {
  bq_project : string;
  bq_dataset_id : string;
  bq_table_id : string;
  bq_schema : list SchemaField;
  bq_num_rows : Z;
  bq_table_type : string;
  bq_clustering_fields : option (list string)
}.

(** [GbqTable.from_table]; [if columns:] tests that the sequence is not
    empty. *)
Definition from_table (bq_table : BqTable) (columns : list string) : GbqTable :=
  let schema :=
    if bool_decide (columns ≠ [])
    then filter (λ item, sf_name item ∈ columns) (bq_schema bq_table)
    else bq_schema bq_table in
  mkGbqTable (bq_project bq_table) (bq_dataset_id bq_table)
    (bq_table_id bq_table) schema (bq_num_rows bq_table)
    (bool_decide (bq_table_type bq_table = "TABLE"))
    (bq_clustering_fields bq_table).

(** ** Auxiliary definitions of the further properties *)

(** The nodes of a tree, as [child_nodes] reaches them: the node, then the
    nodes of its children in order. *)
Fixpoint nodes_of (self : BigFrameNode) : list BigFrameNode :=
  self ::
  match self with
  | JoinNode left_child right_child _ _ =>
      nodes_of left_child ++ nodes_of right_child
  | ConcatNode children => concat (map nodes_of children)
  | FromRangeNode start end_ _ => nodes_of start ++ nodes_of end_
  | ReadLocalNode _ _ _ _ _ | ReadTableNode _ _ _
  | CachedTableNode _ _ _ _ => []
  | PromoteOffsetsNode child _ | FilterNode child _ | OrderByNode child _
  | ReversedNode child _ | SelectionNode child _ | ProjectionNode child _
  | RowCountNode child | AggregateNode child _ _ _
  | WindowOpNode child _ _ _ _ _ _ | ReprojectOpNode child
  | RandomSampleNode child _ | ExplodeNode child _ => nodes_of child
  end.

(** The sessions of the leaves of a tree that have one, left to right. *)
Fixpoint leaf_sessions (self : BigFrameNode) : list Session :=
  match self with
  | ReadLocalNode _ _ _ _ session => option_list session
  | ReadTableNode _ _ table_session
  | CachedTableNode _ _ table_session _ => [table_session]
  | JoinNode left_child right_child _ _ =>
      leaf_sessions left_child ++ leaf_sessions right_child
  | ConcatNode children => concat (map leaf_sessions children)
  | FromRangeNode start end_ _ => leaf_sessions start ++ leaf_sessions end_
  | PromoteOffsetsNode child _ | FilterNode child _ | OrderByNode child _
  | ReversedNode child _ | SelectionNode child _ | ProjectionNode child _
  | RowCountNode child | AggregateNode child _ _ _
  | WindowOpNode child _ _ _ _ _ _ | ReprojectOpNode child
  | RandomSampleNode child _ | ExplodeNode child _ => leaf_sessions child
  end.

(** What [combine_sessions] returns says about the sessions it was given:
    [session_outcome res l] relates a result to the list of sessions. *)
Definition session_outcome (res : Result (option Session))
    (sessions : list Session) : Prop :=
  match res with
  | inr None => sessions = []
  | inr (Some s) => s ∈ sessions ∧ ∀ x, x ∈ sessions → x = s
  | inl e =>
      e = ValueError "Cannot use combine sources from multiple sessions."
      ∧ ∃ x y, x ∈ sessions ∧ y ∈ sessions ∧ x ≠ y
  end.

(** The classes whose [roots] is [{self}]: the leaves and
    [FromRangeNode]. *)
Definition reports_itself_as_root (self : BigFrameNode) : bool :=
  match self with
  | FromRangeNode _ _ _ | ReadLocalNode _ _ _ _ _ | ReadTableNode _ _ _
  | CachedTableNode _ _ _ _ => true
  | _ => false
  end.

(** [root_below self x]: [x] reports itself as root and is reached from
    [self] through child nodes that do not. *)
Inductive root_below : BigFrameNode → BigFrameNode → Prop :=
  | root_below_self x : reports_itself_as_root x = true → root_below x x
  | root_below_child self child x :
      reports_itself_as_root self = false →
      child ∈ child_nodes self → root_below child x → root_below self x.

#[global] Instance valid_index_dec {A} (l : list A) (i : Z) :
  Decision (valid_index l i).
Proof. unfold valid_index. apply _. Defined.

(** A text without a backslash. *)
Fixpoint backslash_free (s : string) : bool :=
  match s with
  | EmptyString => true
  | String c s' => negb (bool_decide (c = "\"%char)) && backslash_free s'
  end.

(** The fingerprint of a row whose columns have these texts. *)
Definition fingerprint_of_texts (texts : list string) : string :=
  foldr (λ t rest, ("\" +:+ escape_backslashes t) +:+ rest) "" texts.

(** ** Example rows *)

(** A row whose column [k] holds the text of the NULL sentinel; its other
    columns are NULL. *)
Definition example_sentinel_row (name : string) : option Scalar :=
  if bool_decide (name = "k") then Some (SStr "$NULL_SENTINEL$") else None.

(** A row of two text columns [a] and [b]. *)
Definition example_text_row (a b : option string) (name : string) :
    option Scalar :=
  if bool_decide (name = "a") then SStr <$> a
  else if bool_decide (name = "b") then SStr <$> b
  else None.

Definition example_text_columns : list IbisColumn :=
  [mkIbisColumn "a" dt_String; mkIbisColumn "b" dt_String].


(** * Properties *)

(** ** Column pruning *)

Lemma filter_filter_same {A} (P : A → Prop) `{∀ x, Decision (P x)}
    (l : list A) :
  filter P (filter P l) = filter P l.
Proof.
  induction l as [|x l IH]; [done|].
  rewrite filter_cons. destruct (decide (P x)) as [HP|HP]; [|done].
  rewrite filter_cons, decide_True by done. by rewrite IH.
Qed.

Lemma elem_of_concat {A} (x : A) (ls : list (list A)) :
  x ∈ concat ls ↔ ∃ l, x ∈ l ∧ l ∈ ls.
Proof.
  induction ls as [|l' ls IH]; simpl.
  - split; [by intros ?%not_elem_of_nil | by intros (l & _ & ?%not_elem_of_nil)].
  - rewrite elem_of_app, IH. split.
    + intros [H|(l & H1 & H2)]; [exists l' | exists l];
        (split; [done|]); [apply list_elem_of_here | by apply list_elem_of_further].
    + intros (l & H1 & [->|H2]%elem_of_cons); [by left | right; by exists l].
Qed.

Lemma prune_scan_list_idemp (scan_list : ScanList) (used_cols : COLUMN_SET) :
  prune_scan_list (prune_scan_list scan_list used_cols) used_cols
  = prune_scan_list scan_list used_cols.
Proof. unfold prune_scan_list. simpl. by rewrite filter_filter_same. Qed.

(** What [WindowOpNode.prune] returns, by whether the output is used. *)
Lemma WindowOpNode_prune child column_name op window_spec output_name nsn sru
    (used_cols : COLUMN_SET) :
  prune (WindowOpNode child column_name op window_spec output_name nsn sru)
    used_cols
  = if decide (output_name ∈ used_cols) then
      WindowOpNode
        (prune child
           ((used_cols ∖ {[output_name]}) ∪ {[deref_id column_name]}))
        column_name op window_spec output_name nsn sru
    else child.
Proof.
  simpl. destruct (decide (output_name ∈ used_cols)).
  - rewrite decide_False; [done | tauto]. 
  - by rewrite decide_True.
Qed.

(** Apart from the window nodes, pruning twice against the same set is
    pruning once. *)
Lemma prune_idempotent_window_free (self : BigFrameNode) :
  window_free self = true →
  ∀ used_cols : COLUMN_SET,
    prune (prune self used_cols) used_cols = prune self used_cols.
Proof.
  induction self using BigFrameNode_ind'; simpl; intros Hwf U;
    try discriminate; try done;
    try (by rewrite ?prune_scan_list_idemp);
    try (by simpl; rewrite ?IHself by done).
  - apply andb_true_iff in Hwf as [Hl Hr]. simpl.
    by rewrite IHself1, IHself2.
  - destruct (decide (i ∉ U)) as [Hi|Hi]; [by apply IHself|].
    simpl. rewrite decide_False by done. by rewrite IHself.
  - simpl. rewrite filter_filter_same. by rewrite IHself.
  - destruct (decide (length (filter (λ i, i.2 ∈ U) a) = 0)) as [Hl|Hl];
      [by apply IHself|].
    simpl. rewrite filter_filter_same, decide_False by done.
    by rewrite IHself.
  - simpl. rewrite filter_filter_same. by rewrite IHself.
Qed.

(** Pruning keeps every output column that is in the set it prunes
    against. *)
Lemma prune_keeps_used (self : BigFrameNode) :
  ∀ (used_cols : COLUMN_SET) (key : ColumnId),
    key ∈ field_ids self → key ∈ used_cols →
    key ∈ field_ids (prune self used_cols).
Proof.
  induction self using BigFrameNode_ind'; simpl; intros U key Hkey HU;
    try done;
    try (by apply IHself; [done | set_solver]);
    try (by apply list_elem_of_fmap in Hkey as (it & -> & Hit);
         apply list_elem_of_fmap; exists it; split; [done|];
         apply list_elem_of_filter).
  - apply elem_of_app in Hkey as [Hkey|Hkey]; apply elem_of_app;
      [left; apply IHself1 | right; apply IHself2];
      first [done | apply elem_of_union_l, HU].
  - apply elem_of_app in Hkey as [Hkey|Hkey].
    + destruct (decide (i ∉ U)); [by apply IHself|].
      simpl. apply elem_of_app.
      destruct (decide (key = i)) as [->|]; [right; set_solver|].
      left. apply IHself; set_solver.
    + apply list_elem_of_singleton in Hkey as ->.
      rewrite decide_False by (intros Hn; by apply Hn).
      simpl. set_solver.
  - apply elem_of_app in Hkey as [Hkey|Hkey].
    + destruct (decide (length (filter (λ i, i.2 ∈ U) a) = 0));
        [by apply IHself|].
      simpl. apply elem_of_app. left. apply IHself; set_solver.
    + apply list_elem_of_fmap in Hkey as (it & -> & Hit).
      assert (it ∈ filter (λ i, i.2 ∈ U) a) as Hin
        by by apply list_elem_of_filter.
      destruct (decide (length (filter (λ i, i.2 ∈ U) a) = 0)) as [Hl|Hl].
      { apply nil_length_inv in Hl. rewrite Hl in Hin. by inversion Hin. }
      simpl. apply elem_of_app. right. apply list_elem_of_fmap. by exists it.
  - apply elem_of_app in Hkey as [Hkey|Hkey]; apply elem_of_app; [by left|right].
    apply list_elem_of_fmap in Hkey as (it & -> & Hit).
    apply list_elem_of_fmap. exists it. split; [done|].
    by apply list_elem_of_filter.
  - apply elem_of_app in Hkey as [Hkey|Hkey].
    + destruct (decide (out ∉ U)); [done|].
      simpl. apply elem_of_app.
      destruct (decide (key = out)) as [->|]; [right; set_solver|].
      left. apply IHself; set_solver.
    + apply list_elem_of_singleton in Hkey as ->.
      rewrite decide_False by (intros Hn; by apply Hn).
      simpl. set_solver.
Qed.

(** ** Output schema *)

Lemma bind_inr {A B} (m : Result A) (f : A → Result B) (b : B) :
  (m ≫= f) = inr b → ∃ a, m = inr a ∧ f a = inr b.
Proof. destruct m as [e|a]; [discriminate | by exists a]. Qed.

Lemma traverse_inr_map {A B C} (f : A → Result B) (g : A → C) (h : B → C)
    (l : list A) (bs : list B) :
  (∀ a b, f a = inr b → h b = g a) →
  traverse f l = inr bs → map h bs = map g l.
Proof.
  intros Hf. revert bs. induction l as [|a l IH]; simpl; intros bs Hbs.
  - by injection Hbs as <-.
  - apply bind_inr in Hbs as (b & Hb & Hbs).
    apply bind_inr in Hbs as (bs' & Hbs' & Hbs).
    injection Hbs as <-. simpl. by rewrite (Hf _ _ Hb), (IH _ Hbs').
Qed.

Lemma traverse_inr_Forall {A B} (f : A → Result B) (l : list A) :
  Forall (λ a, succeeds (f a)) l → succeeds (traverse f l).
Proof.
  induction 1 as [|a l [b Hb] _ [bs Hbs]]; simpl; [by exists []|].
  exists (b :: bs). by rewrite Hb, Hbs.
Qed.

(** Whenever [fields] returns, the ids of the fields are [field_ids]. *)
Lemma fields_field_ids eot aot oot (self : BigFrameNode) (fs : list Field) :
  fields eot aot oot self = inr fs → map field_id fs = field_ids self.
Proof.
  revert fs.
  induction self as [ | cs IH | | | | | | | | | | | | | | | | ]
    using BigFrameNode_ind'; simpl; intros fs Hfs;
    try (by injection Hfs as <-; rewrite ?map_map);
    try (by apply IHself).
  - apply bind_inr in Hfs as (l' & Hl & Hfs).
    apply bind_inr in Hfs as (r' & Hr & Hfs). injection Hfs as <-.
    by rewrite map_app, (IHself1 _ Hl), (IHself2 _ Hr).
  - destruct IH as [|c0 cs Hc0 _]; [discriminate|].
    apply bind_inr in Hfs as (fs0 & Hfs0 & Hfs). injection Hfs as <-.
    rewrite <- (Hc0 _ Hfs0). 
    change (map field_id) with (fmap (M:=list) field_id).
    by rewrite fmap_imap, imap_fmap.
  - apply bind_inr in Hfs as (fs0 & Hfs0 & Hfs).
    destruct fs0; [discriminate|]. by injection Hfs as <-.
  - apply bind_inr in Hfs as (fs0 & Hfs0 & Hfs). injection Hfs as <-.
    by rewrite map_app, (IHself _ Hfs0).
  - apply (traverse_inr_map _ snd field_id) in Hfs; [done|].
    intros io f Hf. apply bind_inr in Hf as (fs0 & _ & Hf).
    apply bind_inr in Hf as (t & _ & Hf). by injection Hf as <-.
  - apply bind_inr in Hfs as (fs0 & Hfs0 & Hfs).
    apply bind_inr in Hfs as (new & Hnew & Hfs). injection Hfs as <-.
    rewrite map_app, (IHself _ Hfs0). f_equal.
    apply (traverse_inr_map _ snd field_id) in Hnew; [done|].
    intros io f Hf. apply bind_inr in Hf as (t & _ & Hf). by injection Hf as <-.
  - apply bind_inr in Hfs as (bys & Hbys & Hfs).
    apply bind_inr in Hfs as (aggs & Haggs & Hfs). injection Hfs as <-.
    rewrite map_app. f_equal.
    + apply (traverse_inr_map _ deref_id field_id) in Hbys; [done|].
      intros io f Hf. apply bind_inr in Hf as (fs0 & _ & Hf).
      apply bind_inr in Hf as (t & _ & Hf). by injection Hf as <-.
    + apply (traverse_inr_map _ snd field_id) in Haggs; [done|].
      intros io f Hf. apply bind_inr in Hf as (fs0 & _ & Hf).
      apply bind_inr in Hf as (t & _ & Hf). by injection Hf as <-.
  - apply bind_inr in Hfs as (fs0 & Hfs0 & Hfs).
    apply bind_inr in Hfs as (ty & Hty & Hfs).
    apply bind_inr in Hfs as (ty' & Hty' & Hfs). injection Hfs as <-.
    by rewrite map_app, (IHself _ Hfs0).
  - apply bind_inr in Hfs as (fs0 & Hfs0 & Hfs).
    apply (traverse_inr_map _ field_id field_id) in Hfs.
    + by rewrite Hfs, (IHself _ Hfs0).
    + intros f f' Hf. destruct (decide _); [|by injection Hf as <-].
      apply bind_inr in Hf as (t & _ & Hf).
      apply bind_inr in Hf as (v & _ & Hf). by injection Hf as <-.
Qed.

(** C1 (fails on the code): pruning is not idempotent.  Pruning
    [example_window] against [{a}], which does not hold the window's output
    [w], returns the child table with both of its columns; pruning that
    result against [{a}] again drops column [b]. *)
Theorem prune_not_idempotent :
  ∃ (self : BigFrameNode) (used_cols : COLUMN_SET),
    prune self used_cols = example_leaf
    ∧ prune (prune self used_cols) used_cols = example_leaf_a
    ∧ prune (prune self used_cols) used_cols ≠ prune self used_cols.
Proof.
  exists example_window, {["a"]}. split; [|split].
  - vm_compute. reflexivity.
  - vm_compute. reflexivity.
  - intros H. vm_compute in H. discriminate H.
Qed.

(** C3 (fails on the code): [WindowOpNode.prune] keeps the window node and
    recurses with the used set minus the output plus the input column when
    the output is used, as claimed; but when the output is not used it
    returns [self.child] as it is, not the child pruned against the used
    set.  On [example_window] and [{a}] it returns the table with both
    columns, where the pruned child has column [a] only. *)
Theorem WindowOpNode_prune_returns_unpruned_child :
  (∀ child column_name op window_spec output_name nsn sru
     (used_cols : COLUMN_SET),
     prune (WindowOpNode child column_name op window_spec output_name nsn sru)
       used_cols
     = (if decide (output_name ∈ used_cols) then
          WindowOpNode
            (prune child
               ((used_cols ∖ {[output_name]}) ∪ {[deref_id column_name]}))
            column_name op window_spec output_name nsn sru
        else child))
  ∧ ("w" ∉ ({["a"]} : COLUMN_SET))
  ∧ prune example_window {["a"]} = example_leaf
  ∧ prune example_leaf {["a"]} = example_leaf_a
  ∧ example_leaf ≠ example_leaf_a.
Proof.
  split; [apply WindowOpNode_prune|].
  split; [set_solver|].
  split; [vm_compute; reflexivity|].
  split; [vm_compute; reflexivity|].
  discriminate.
Qed.

(** C6: [JoinNode.prune] prunes each child against the used set enlarged by
    the column ids of all join-key references of both sides; every key id is
    in that set, so a key column a child outputs is still output by the
    pruned child, whether or not it was in the used set. *)
Theorem JoinNode_prune_keeps_join_keys :
  ∀ left_child right_child conditions type (used_cols : COLUMN_SET),
    let new_used : COLUMN_SET :=
      used_cols ∪ list_to_set (condition_ids conditions) in
    prune (JoinNode left_child right_child conditions type) used_cols
    = JoinNode (prune left_child new_used) (prune right_child new_used)
        conditions type
    ∧ (∀ l r, (l, r) ∈ conditions →
         deref_id l ∈ new_used ∧ deref_id r ∈ new_used
         ∧ (deref_id l ∈ field_ids left_child →
            deref_id l ∈ field_ids (prune left_child new_used))
         ∧ (deref_id r ∈ field_ids right_child →
            deref_id r ∈ field_ids (prune right_child new_used))).
Proof.
  intros left_child right_child conditions type used_cols new_used.
  split; [done|].
  intros l r Hin.
  assert (deref_id l ∈ new_used ∧ deref_id r ∈ new_used) as [Hl Hr].
  { unfold new_used, condition_ids.
    split; apply elem_of_union_r, elem_of_list_to_set, list_elem_of_fmap;
      [exists l | exists r]; (split; [done|]);
      apply elem_of_concat; exists [l; r];
      (split; [set_solver|]);
      apply list_elem_of_fmap; by exists (l, r). }
  repeat split; [done | done | |]; intros Hf; by apply prune_keeps_used.
Qed.

(** The scenario of the spec: pruning the join of [{x}] and [{y}] on
    [x = y] against [{x}] keeps [y]. *)
Lemma JoinNode_prune_keeps_join_keys_witness :
  prune example_join {["x"]} = example_join
  ∧ "y" ∈ field_ids (prune (example_leaf_of "y" INT_DTYPE)
                       ({["x"]} ∪ list_to_set ["x"; "y"])).
Proof.
  destruct (JoinNode_prune_keeps_join_keys
              (example_leaf_of "x" INT_DTYPE) (example_leaf_of "y" INT_DTYPE)
              [(mkDerefOp "x", mkDerefOp "y")] Left {["x"]})
    as [Hprune Hkeys].
  split.
  - unfold example_join. rewrite Hprune. vm_compute. reflexivity.
  - destruct (Hkeys (mkDerefOp "x") (mkDerefOp "y")) as (_ & _ & _ & Hy).
    + left.
    + apply Hy. simpl. left.
Defined.

(** ** Structural equality and hashing *)

(** [__eq__] holds exactly of two nodes with the same class and the same
    field values.  This also justifies comparing the node-valued elements of
    the tuples structurally in [__eq__]: on them [==] is [__eq__] again. *)
Lemma eq_iff_same_node hash (self other : BigFrameNode) :
  __eq__ hash self other = true ↔ self = other.
Proof.
  unfold __eq__. split.
  - destruct (isinstance other (class_of self)) eqn:Hi; simpl; [|done].
    destruct (bool_decide (__hash__ hash self = __hash__ hash other));
      simpl; [|done].
    intros Ht%bool_decide_eq_true.
    destruct self, other; try (vm_compute in Hi; discriminate Hi);
      simpl in Ht; by simplify_eq.
  - intros ->.
    assert (isinstance other (class_of other) = true) as ->.
    { unfold isinstance. by rewrite bool_decide_eq_true_2. }
    simpl. by rewrite !bool_decide_eq_true_2.
Qed.

(** C2 (as stated, fails): two [CachedTableNode]s that agree on [source],
    [scan_list] and the session and differ in [original_node] are not equal,
    whatever the hash function. *)
Lemma CachedTableNode_differing_original_not_equal :
  ∃ source scan_list table_session original1 original2,
    original1 ≠ original2
    ∧ ∀ hash,
        __eq__ hash
          (CachedTableNode source scan_list table_session original1)
          (CachedTableNode source scan_list table_session original2)
        = false.
Proof.
  exists example_source, example_scan_list, 0, example_leaf, example_leaf_a.
  split; [discriminate|]. intros hash.
  destruct (__eq__ hash _ _) eqn:E; [|done].
  apply eq_iff_same_node in E. discriminate E.
Qed.

(** C2 (amended): [original_node] is not among the [child_nodes] of a
    [CachedTableNode], which has none; but it is one of the dataclass fields
    [_as_tuple] collects, so it takes part in hashing and in equality: two
    [CachedTableNode]s that agree on [source], [scan_list] and the session
    are equal exactly when their [original_node]s are equal, and then their
    hashes are equal. *)
Theorem CachedTableNode_original_node_compared_not_child :
  ∀ hash source scan_list table_session original1 original2,
    let node1 := CachedTableNode source scan_list table_session original1 in
    let node2 := CachedTableNode source scan_list table_session original2 in
    child_nodes node1 = []
    ∧ ANode original1 ∈ _as_tuple node1
    ∧ __hash__ hash node1 = hash (_as_tuple node1)
    ∧ (__eq__ hash node1 node2 = true ↔ original1 = original2)
    ∧ (original1 = original2 → __hash__ hash node1 = __hash__ hash node2).
Proof.
  intros hash source scan_list table_session original1 original2 node1 node2.
  split; [done|]. split; [simpl; set_solver|]. split; [done|]. split.
  - rewrite eq_iff_same_node. unfold node1, node2.
    split; [by intros [= ->] | by intros ->].
  - by intros ->.
Qed.

(** ** Row counts *)

(** C10: the row count of a [ReadTableNode] (and of a [CachedTableNode],
    which inherits the property) is the declared row count of the table when
    the source has no SQL predicate and the table is a physical table, and
    [None] in every other case. *)
Theorem ReadTableNode_row_count :
  ∀ source scan_list table_session original_node,
    let known :=
      sql_predicate source = None ∧ is_physical_table (table source) = true in
    row_count (CachedTableNode source scan_list table_session original_node)
    = row_count (ReadTableNode source scan_list table_session)
    ∧ (known → row_count (ReadTableNode source scan_list table_session)
               = ok (Some (n_rows (table source))))
    ∧ (¬ known → row_count (ReadTableNode source scan_list table_session)
                 = ok None).
Proof.
  intros source scan_list table_session original_node known. unfold known.
  simpl. split; [done|].
  destruct (sql_predicate source) as [p|], (is_physical_table (table source));
    simpl; split; try done; try (by intros []); intros H; by destruct H.
Qed.

(** ** Construction of [ConcatNode] *)

Lemma traverse_inr_Forall2 {A B} (f : A → Result B) (l : list A)
    (bs : list B) :
  traverse f l = inr bs ↔ Forall2 (λ a b, f a = inr b) l bs.
Proof.
  revert bs. induction l as [|a l IH]; simpl; intros bs.
  - split; [intros [= <-]; constructor | by intros ->%Forall2_nil_inv_l].
  - split.
    + intros (b & Hb & H)%bind_inr. apply bind_inr in H as (bs' & Hbs & H).
      injection H as <-. constructor; [done | by apply IH].
    + intros (b & bs' & Hb & Hbs & ->)%Forall2_cons_inv_l.
      apply IH in Hbs. by rewrite Hb, Hbs.
Qed.

Lemma traverse_raises {A B} (f : A → Result B) (l : list A) (a : A) :
  a ∈ l → raises (f a) → raises (traverse f l).
Proof.
  intros Ha [e He]. induction l as [|a' l IH]; simpl.
  - by apply not_elem_of_nil in Ha.
  - apply elem_of_cons in Ha as [<-|Ha].
    + rewrite He. by exists e.
    + destruct (f a') as [e'|b]; simpl; [by exists e'|].
      destruct (IH Ha) as [e2 ->]. by exists e2.
Qed.

(** [len(set(xs)) == 1] says that [xs] is not empty and that its elements
    are all equal. *)
Lemma remove_dups_length_1 {A} `{EqDecision A} (l : list A) :
  length (remove_dups l) = 1 ↔ ∃ d, d ∈ l ∧ ∀ x, x ∈ l → x = d.
Proof.
  split.
  - intros Hlen. destruct (remove_dups l) as [|d [|? ?]] eqn:E; try done.
    assert (∀ x, x ∈ l ↔ x = d) as Hd.
    { intros x. rewrite <- elem_of_remove_dups, E.
      apply list_elem_of_singleton. }
    exists d. split; [by apply Hd | intros x; apply Hd].
  - intros (d & Hd & Hall).
    pose proof (NoDup_remove_dups l) as Hnd.
    assert (∀ x, x ∈ remove_dups l → x = d) as Hall'
      by (intros x Hx; apply Hall; by apply elem_of_remove_dups).
    apply elem_of_remove_dups in Hd.
    destruct (remove_dups l) as [|a [|b l']]; [by inversion Hd | done |].
    exfalso. apply NoDup_cons in Hnd as [Hnotin _]. apply Hnotin.
    assert (a = d) as -> by (apply Hall'; left).
    assert (b = d) as -> by (apply Hall'; right; left).
    left.
Qed.

(** C8: constructing a [ConcatNode] raises when the children tuple is
    empty, and raises when two children have different dtype sequences;
    with at least one child and one dtype sequence shared by all children
    it returns the node. *)
Theorem ConcatNode_construction :
  ∀ eot aot oot,
    let construct := new_ConcatNode eot aot oot in
    let dtypes_of := child_schema_dtypes eot aot oot in
    construct []
    = raise (ValueError
               "Concat requires at least one input table. Zero provided.")
    ∧ (∀ children child1 child2 dtypes1 dtypes2,
         child1 ∈ children → child2 ∈ children →
         dtypes_of child1 = ok dtypes1 → dtypes_of child2 = ok dtypes2 →
         dtypes1 ≠ dtypes2 →
         raises (construct children))
    ∧ (∀ children dtypes1,
         children ≠ [] →
         (∀ child, child ∈ children → dtypes_of child = ok dtypes1) →
         construct children = ok (ConcatNode children)).
Proof.
  intros eot aot oot construct dtypes_of. split; [done|]. split.
  - intros children child1 child2 dtypes1 dtypes2 H1 H2 Hd1 Hd2 Hne.
    unfold construct, new_ConcatNode, ConcatNode_post_init.
    destruct (decide (length children = 0)); [by eexists|].
    fold dtypes_of.
    destruct (traverse dtypes_of children) as [e|schemas] eqn:Ht;
      [by exists e|].
    simpl. apply traverse_inr_Forall2 in Ht.
    destruct (bool_decide (length (remove_dups schemas) = 1)) eqn:Hlen;
      simpl; [|by eexists].
    apply bool_decide_eq_true, remove_dups_length_1 in Hlen
      as (d & _ & Hall).
    exfalso. apply Hne.
    assert (∀ child ds, child ∈ children → dtypes_of child = ok ds → ds = d)
      as Hsame.
    { intros child ds [i Hi]%list_elem_of_lookup Hds.
      destruct (Forall2_lookup_l _ _ _ _ _ Ht Hi) as (ds' & Hi' & Hds').
      rewrite Hds in Hds'. injection Hds' as ->.
      apply Hall. by eapply list_elem_of_lookup_2. }
    by rewrite (Hsame _ _ H1 Hd1), (Hsame _ _ H2 Hd2).
  - intros children dtypes1 Hne Hall.
    unfold construct, new_ConcatNode, ConcatNode_post_init.
    rewrite decide_False by (by destruct children).
    fold dtypes_of.
    assert (traverse dtypes_of children
            = inr (replicate (length children) dtypes1)) as ->.
    { apply traverse_inr_Forall2.
      clear Hne. induction children as [|child children IH]; simpl;
        constructor; [apply Hall; left | apply IH].
      intros c Hc. apply Hall. by right. }
    simpl. rewrite bool_decide_eq_true_2; [done|].
    apply remove_dups_length_1. exists dtypes1. split.
    + destruct children; [done|]. simpl. left.
    + by intros x ?%elem_of_replicate_inv.
Qed.

(** The scenario of the spec: two children with the fields [{a:int64}] and
    [{b:int64}] are accepted; children with [{a:int64}] and [{b:string}]
    are refused. *)
Lemma ConcatNode_construction_witness :
  new_ConcatNode no_output_type no_output_type no_output_type
    [example_leaf_of "a" INT_DTYPE; example_leaf_of "b" INT_DTYPE]
  = ok (ConcatNode
          [example_leaf_of "a" INT_DTYPE; example_leaf_of "b" INT_DTYPE])
  ∧ raises (new_ConcatNode no_output_type no_output_type no_output_type
              [example_leaf_of "a" INT_DTYPE;
               example_leaf_of "b" STRING_DTYPE]).
Proof.
  destruct (ConcatNode_construction no_output_type no_output_type
              no_output_type) as (_ & Hdiffer & Hsame).
  split.
  - apply (Hsame _ [INT_DTYPE]); [discriminate|].
    intros child [->|[->|[]%elem_of_nil]%elem_of_cons]%elem_of_cons;
      reflexivity.
  - apply (Hdiffer _ (example_leaf_of "a" INT_DTYPE)
             (example_leaf_of "b" STRING_DTYPE) [INT_DTYPE] [STRING_DTYPE]).
    + left.
    + right. left.
    + reflexivity.
    + reflexivity.
    + discriminate.
Defined.

(** ** Join keys *)

Lemma table_getitem_inr (t : IbisTable) (name : string) (c : IbisColumn) :
  table_getitem t name = inr c → col_name c = name ∧ c ∈ table_schema t.
Proof.
  unfold table_getitem.
  destruct (list_find _ _) as [[i c']|] eqn:E; [|discriminate].
  intros [= <-]. apply list_find_Some in E as (Hi & Hc & _).
  split; [done | by eapply list_elem_of_lookup_2].
Qed.

Section JoinKeys.
Variable render : Scalar → string.
Variable st_astext to_json_string : option Scalar → option Scalar.
Variable farm_fingerprint : string → Z.
Variable row : string → option Scalar.
Variable rand : Z.

Local Abbreviation eval_row :=
  (eval render st_astext to_json_string farm_fingerprint row rand).
Local Abbreviation matches_row :=
  (join_matches render st_astext to_json_string farm_fingerprint row rand).

Lemma eval_value_to_join_key (value : Value) :
  eval_row (value_to_join_key value)
  = Some (match eval_row value with
          | Some x =>
              if is_string (type_of value) then x else SStr (str_of render x)
          | None => SStr "$NULL_SENTINEL$"
          end).
Proof.
  unfold value_to_join_key.
  destruct (is_string (type_of value)); simpl;
    by destruct (eval_row value).
Qed.

(** C4: [value_to_join_key] casts a value whose type is not textual to
    text and then replaces NULL by the literal ["$NULL_SENTINEL$"]; the key
    is never NULL, two NULL values have equal keys although their own
    comparison is NULL, and a pair of rows whose join-key columns are NULL
    on both sides in every condition satisfies the join conditions the
    compilers build. *)
Theorem value_to_join_key_null_safe :
  (∀ value,
     value_to_join_key value
     = FillNull (if is_string (type_of value) then value
                 else Cast value dt_String)
         (Literal "$NULL_SENTINEL$"))
  ∧ (∀ value,
       eval_row (value_to_join_key value)
       = Some (match eval_row value with
               | Some x =>
                   if is_string (type_of value) then x
                   else SStr (str_of render x)
               | None => SStr "$NULL_SENTINEL$"
               end))
  ∧ (∀ l r,
       eval_row l = None → eval_row r = None →
       eval_row (Equals l r) = None
       ∧ eval_row (Equals (value_to_join_key l) (value_to_join_key r))
         = Some (SBool true))
  ∧ (∀ left_table right_table conditions predicates,
       build_join_conditions left_table right_table conditions
       = ok predicates →
       (∀ c left_name right_name,
          c ∈ conditions →
          py_getitem (table_columns left_table) c.1 = ok left_name →
          py_getitem (table_columns right_table) c.2 = ok right_name →
          row left_name = None ∧ row right_name = None) →
       matches_row predicates = true).
Proof.
  split; [|split; [|split]].
  - intros value. unfold value_to_join_key.
    by destruct (is_string (type_of value)).
  - apply eval_value_to_join_key.
  - intros l r Hl Hr. split; [simpl; by rewrite Hl|].
    change (eval_row (Equals ?a ?b))
      with (x ← eval_row a; y ← eval_row b;
            Some (SBool (bool_decide (x = y)))).
    rewrite !eval_value_to_join_key, Hl, Hr. simpl.
    by rewrite ?bool_decide_eq_true_2.
  - intros left_table right_table conditions predicates Hbuild Hnull.
    apply traverse_inr_Forall2 in Hbuild.
    unfold join_matches. apply forallb_forall. intros p Hp.
    apply list_elem_of_In, list_elem_of_lookup in Hp as [i Hi].
    destruct (Forall2_lookup_r _ _ _ _ _ Hbuild Hi) as (c & Hc & Hcp).
    apply list_elem_of_lookup_2 in Hc.
    apply bind_inr in Hcp as (left_name & Hln & Hcp).
    apply bind_inr in Hcp as (left_col & Hlc & Hcp).
    apply bind_inr in Hcp as (right_name & Hrn & Hcp).
    apply bind_inr in Hcp as (right_col & Hrc & Hcp).
    injection Hcp as <-.
    destruct (Hnull c left_name right_name Hc Hln Hrn) as [Hl Hr].
    apply table_getitem_inr in Hlc as [Hlc _].
    apply table_getitem_inr in Hrc as [Hrc _].
    apply bool_decide_eq_true.
    change (eval_row (Equals ?a ?b))
      with (x ← eval_row a; y ← eval_row b;
            Some (SBool (bool_decide (x = y)))).
    rewrite !eval_value_to_join_key. simpl. rewrite Hlc, Hrc, Hl, Hr.
    simpl. by rewrite ?bool_decide_eq_true_2.
Qed.
End JoinKeys.

(** A pair of rows in which every column is NULL satisfies the condition
    of the example join on the two [k] columns, whose own comparison is
    NULL. *)
Lemma value_to_join_key_null_safe_witness :
  ∃ predicates,
    build_join_conditions (u_to_ibis_expr example_left_unordered ∅)
      (u_to_ibis_expr example_right_unordered ∅) [(0, 0)%Z]
    = ok predicates
    ∧ join_matches (λ _, "") id id (λ _, 0%Z) (λ _, None) 0 predicates = true
    ∧ eval (λ _, "") id id (λ _, 0%Z) (λ _, None) 0
        (Equals (ColumnRef (mkIbisColumn "k" dt_Int64))
           (ColumnRef (mkIbisColumn "k" dt_Int64)))
      = None.
Proof.
  destruct (value_to_join_key_null_safe (λ _, "") id id (λ _, 0%Z)
              (λ _, None) 0%Z) as (_ & _ & Hnull & Hjoin).
  eexists. split; [vm_compute; reflexivity|]. split.
  - apply (Hjoin (u_to_ibis_expr example_left_unordered ∅)
             (u_to_ibis_expr example_right_unordered ∅) [(0, 0)%Z]);
      [vm_compute; reflexivity|]. intros; split; reflexivity.
  - apply Hnull; reflexivity.
Defined.

(** ** Dictionaries, tables and comprehensions *)

Lemma dict_foldl_lookup_notin {V} (pairs : list (string * V))
    (m : gmap string V) (key : string) :
  key ∉ map fst pairs →
  foldl (λ m kv, <[kv.1 := kv.2]> m) m pairs !! key = m !! key.
Proof.
  revert m. induction pairs as [|[k v] pairs IH]; simpl; intros m Hnotin;
    [done|].
  apply not_elem_of_cons in Hnotin as [Hne Hnotin].
  rewrite IH by done. by rewrite lookup_insert_ne.
Qed.

Lemma dict_foldl_lookup_in {V} (pairs : list (string * V))
    (m : gmap string V) (key : string) (v : V) :
  NoDup (map fst pairs) → (key, v) ∈ pairs →
  foldl (λ m kv, <[kv.1 := kv.2]> m) m pairs !! key = Some v.
Proof.
  revert m. induction pairs as [|[k w] pairs IH]; simpl; intros m Hnd Hin.
  - by apply not_elem_of_nil in Hin.
  - apply NoDup_cons in Hnd as [Hnotin Hnd].
    apply elem_of_cons in Hin as [[= -> ->]|Hin].
    + rewrite dict_foldl_lookup_notin by done. apply lookup_insert_eq.
    + by apply IH.
Qed.

Lemma map_fst_zip_sublist {A B} (l : list A) (k : list B) :
  sublist (map fst (zip l k)) l.
Proof.
  revert k. induction l as [|a l IH]; intros [|b k]; simpl;
    [done | done | apply sublist_nil_l | apply sublist_skip, IH].
Qed.

(** With distinct keys, the dictionary of zipped keys and values maps the
    key at each position to the value at that position. *)
Lemma dict_zip_lookup {V} (keys : list string) (vals : list V) (i : nat)
    (key : string) (v : V) :
  NoDup keys → keys !! i = Some key → vals !! i = Some v →
  dict (zip keys vals) !! key = Some v.
Proof.
  intros Hnd Hk Hv. apply dict_foldl_lookup_in.
  - eapply sublist_NoDup; [done | apply map_fst_zip_sublist].
  - apply list_elem_of_lookup. exists i. apply lookup_zip_with_Some.
    by exists key, v.
Qed.

Lemma dict_lookup_None {V} (pairs : list (string * V)) (key : string) :
  key ∉ map fst pairs → dict pairs !! key = None.
Proof.
  intros H. unfold dict. by rewrite dict_foldl_lookup_notin.
Qed.

(** A comprehension over [l] whose element at position [i] evaluates to
    [g i a] returns the list of these values. *)
Lemma traverse_imap {A B} (f : A → Result B) (g : nat → A → B) (l : list A) :
  (∀ i a, l !! i = Some a → f a = inr (g i a)) →
  traverse f l = inr (imap g l).
Proof.
  revert g. induction l as [|a l IH]; simpl; intros g Hf; [done|].
  rewrite (Hf 0 a) by done. simpl.
  rewrite (IH (g ∘ S)) by (intros i b Hb; by apply (Hf (S i))).
  done.
Qed.

(** In a table whose column names are distinct, [table[name]] is the column
    of that name. *)
Lemma table_getitem_lookup (t : IbisTable) (i : nat) (c : IbisColumn) :
  NoDup (table_columns t) → table_schema t !! i = Some c →
  table_getitem t (col_name c) = inr c.
Proof.
  intros Hnd Hi. unfold table_getitem.
  destruct (list_find _ _) as [[j c']|] eqn:E.
  - apply list_find_Some in E as (Hj & Hc' & _).
    assert (i = j) as ->; [|by simplify_eq].
    eapply NoDup_lookup; [apply Hnd | |]; unfold table_columns;
      rewrite list_lookup_fmap; [by rewrite Hi | rewrite Hj; simpl; by rewrite Hc'].
  - apply list_find_None in E.
    eapply Forall_lookup_1 in E; [|done]. by destruct E.
Qed.

Lemma table_getitem_succeeds (t : IbisTable) (name : string) :
  name ∈ table_columns t → succeeds (table_getitem t name).
Proof.
  intros (c & -> & Hc)%list_elem_of_fmap. unfold table_getitem.
  destruct (list_find _ _) as [[j c']|] eqn:E; [by exists c'|].
  apply list_find_None in E. rewrite Forall_forall in E.
  by destruct (E c Hc).
Qed.

Lemma py_getitem_succeeds {A} (l : list A) (i : Z) :
  valid_index l i → ∃ a, py_getitem l i = inr a ∧ a ∈ l.
Proof.
  unfold valid_index, py_getitem. intros Hi.
  set (j := if bool_decide (i < 0)%Z then _ else _).
  assert (0 ≤ j < Z.of_nat (length l))%Z as Hj
    by (unfold j; case_bool_decide; lia).
  rewrite bool_decide_eq_true_2 by done.
  destruct (lookup_lt_is_Some_2 l (Z.to_nat j)) as [a Ha]; [lia|].
  rewrite Ha. exists a. split; [done | by eapply list_elem_of_lookup_2].
Qed.

(** ** Output columns of the join compilers *)

Lemma map_eq_imap {A B} (h : A → B) (g : nat → A → B) (l : list A) :
  (∀ i a, l !! i = Some a → h a = g i a) → map h l = imap g l.
Proof.
  revert g. induction l as [|a l IH]; simpl; intros g Hg; [done|].
  rewrite (Hg 0 a) by done. f_equal.
  apply IH. intros i b Hb. by apply (Hg (S i)).
Qed.

Lemma fresh_columns_names (names : nat → string) (columns : list IbisColumn) :
  map col_name (fresh_columns names columns)
  = map names (seq 0 (length columns)).
Proof.
  unfold fresh_columns. apply list_eq. intros i.
  rewrite !list_lookup_fmap, list_lookup_imap.
  destruct (columns !! i) as [c|] eqn:Hc; simpl.
  - rewrite lookup_seq_lt; [done | by eapply lookup_lt_Some].
  - rewrite lookup_seq_ge; [done | by apply lookup_ge_None].
Qed.

Lemma fresh_columns_lookup names columns (i : nat) (c : IbisColumn) :
  columns !! i = Some c →
  fresh_columns names columns !! i = Some (mkIbisColumn (names i) (col_type c)).
Proof.
  intros Hc. unfold fresh_columns. by rewrite list_lookup_imap, Hc.
Qed.

Lemma fresh_columns_app names columns1 columns2 :
  fresh_columns names columns1
  ++ fresh_columns (λ j, names (length columns1 + j)) columns2
  = fresh_columns names (columns1 ++ columns2).
Proof. unfold fresh_columns. by rewrite imap_app. Qed.

(** The table [_to_ibis_expr] builds when the overrides send the column at
    each position to the name of that position. *)
Lemma renamed_table_schema (t : IbisTable) (overrides : gmap string string)
    (names : nat → string) (columns : list IbisColumn) :
  (∀ i c, columns !! i = Some c → override overrides (get_name c) = names i) →
  table_schema
    (Select t (map (λ c, (override overrides (get_name c), c)) columns))
  = fresh_columns names columns.
Proof.
  intros Hnames. simpl. rewrite map_map. apply map_eq_imap.
  intros i c Hc. simpl. by rewrite (Hnames i c Hc).
Qed.

(** The identifiers zipped to distinct column ids. *)
Lemma zip_identifiers_lookup gen (column_ids : list string) (drawn i : nat)
    (id : string) :
  NoDup column_ids → column_ids !! i = Some id →
  dict (zip_identifiers gen column_ids drawn).1 !! id = Some (gen (drawn + i)).
Proof.
  intros Hnd Hi. unfold zip_identifiers. simpl.
  apply (dict_zip_lookup _ _ i); [done | done |].
  rewrite list_lookup_fmap, lookup_seq_lt; [done|].
  by eapply lookup_lt_Some.
Qed.

Lemma remapped_columns_fresh (combined : IbisTable)
    (mapping : gmap string string) (columns : list IbisColumn)
    (names : nat → string) (offset : nat) :
  NoDup (table_columns combined) →
  (∀ i c, columns !! i = Some c →
     mapping !! get_name c = Some (names i)
     ∧ table_schema combined !! (offset + i)
       = Some (mkIbisColumn (names i) (col_type c))) →
  remapped_columns combined mapping columns
  = inr (fresh_columns names columns).
Proof.
  intros Hnd Hcols. unfold remapped_columns, fresh_columns.
  apply traverse_imap. intros i c Hc.
  destruct (Hcols i c Hc) as [Hm Hs].
  unfold dict_getitem. rewrite Hm. simpl.
  by apply (table_getitem_lookup _ _ _ Hnd Hs).
Qed.

Lemma build_join_conditions_succeeds left_table right_table conditions :
  Forall (λ c, valid_index (table_columns left_table) c.1
               ∧ valid_index (table_columns right_table) c.2) conditions →
  succeeds (build_join_conditions left_table right_table conditions).
Proof.
  intros Hvalid. apply traverse_inr_Forall.
  eapply Forall_impl; [apply Hvalid|]. intros [li ri] [Hl Hr]. simpl in *.
  destruct (py_getitem_succeeds _ _ Hl) as (ln & -> & Hln).
  destruct (py_getitem_succeeds _ _ Hr) as (rn & -> & Hrn).
  destruct (table_getitem_succeeds _ _ Hln) as [lc Hlc].
  destruct (table_getitem_succeeds _ _ Hrn) as [rc Hrc].
  simpl. rewrite Hlc. simpl. rewrite Hrc. by eexists.
Qed.

Lemma join_by_column_unordered_columns gen left_ir right_ir conditions type :
  let columns := u_columns left_ir ++ u_columns right_ir in
  NoDup (u_column_ids left_ir) → NoDup (u_column_ids right_ir) →
  NoDup (map gen (seq 0 (length columns))) →
  Forall (λ c, valid_index (u_columns left_ir) c.1
               ∧ valid_index (u_columns right_ir) c.2) conditions →
  ∃ r, join_by_column_unordered gen left_ir right_ir conditions type = ok r
       ∧ u_columns r = fresh_columns gen columns.
Proof.
  intros columns Hndl Hndr Hgen Hvalid.
  unfold join_by_column_unordered.
  set (n := length (u_columns left_ir)).
  set (l_mapping := dict (zip_identifiers gen (u_column_ids left_ir) 0).1).
  set (r_mapping := dict (zip_identifiers gen (u_column_ids right_ir)
                            (0 + length (u_column_ids left_ir))).1).
  change (zip_identifiers gen (u_column_ids left_ir) 0)
    with ((zip_identifiers gen (u_column_ids left_ir) 0).1,
          0 + length (u_column_ids left_ir)).
  cbv iota beta.
  change (zip_identifiers gen (u_column_ids right_ir)
            (0 + length (u_column_ids left_ir)))
    with ((zip_identifiers gen (u_column_ids right_ir)
             (0 + length (u_column_ids left_ir))).1,
          0 + length (u_column_ids left_ir) + length (u_column_ids right_ir)).
  cbv iota beta. fold l_mapping r_mapping.
  assert (length (u_column_ids left_ir) = n) as Hn
    by (unfold u_column_ids; by rewrite length_map).
  assert (∀ i c, u_columns left_ir !! i = Some c →
                 l_mapping !! get_name c = Some (gen i)) as Hl.
  { intros i c Hc. apply (zip_identifiers_lookup gen _ 0 i); [done|].
    unfold u_column_ids. by rewrite list_lookup_fmap, Hc. }
  assert (∀ i c, u_columns right_ir !! i = Some c →
                 r_mapping !! get_name c = Some (gen (n + i))) as Hr.
  { intros i c Hc. unfold r_mapping. rewrite Hn.
    apply (zip_identifiers_lookup gen _ (0 + n) i); [done|].
    unfold u_column_ids. by rewrite list_lookup_fmap, Hc. }
  assert (table_schema (u_to_ibis_expr left_ir l_mapping)
          = fresh_columns gen (u_columns left_ir)) as Hls.
  { apply renamed_table_schema. intros i c Hc. unfold override.
    by rewrite (Hl i c Hc). }
  assert (table_schema (u_to_ibis_expr right_ir r_mapping)
          = fresh_columns (λ j, gen (n + j)) (u_columns right_ir)) as Hrs.
  { apply renamed_table_schema. intros i c Hc. unfold override.
    by rewrite (Hr i c Hc). }
  destruct (build_join_conditions_succeeds
              (u_to_ibis_expr left_ir l_mapping)
              (u_to_ibis_expr right_ir r_mapping) conditions)
    as [join_conditions ->].
  { eapply Forall_impl; [apply Hvalid|]. intros c. unfold valid_index.
    unfold table_columns. rewrite Hls, Hrs, !length_map.
    unfold fresh_columns. by rewrite !length_imap. }
  simpl.
  set (combined := Join _ _ join_conditions type).
  assert (table_schema combined = fresh_columns gen columns) as Hcs.
  { unfold combined. cbn [table_schema]. rewrite Hls, Hrs.
    apply fresh_columns_app. }
  assert (NoDup (table_columns combined)) as Hnd.
  { unfold table_columns. by rewrite Hcs, fresh_columns_names. }
  rewrite (remapped_columns_fresh combined l_mapping _ gen 0 Hnd).
  2:{ intros i c Hc. split; [by apply Hl|]. rewrite Hcs. simpl.
      apply fresh_columns_lookup. unfold columns.
      by apply lookup_app_l_Some. }
  simpl.
  rewrite (remapped_columns_fresh combined r_mapping _
             (λ j, gen (n + j)) n Hnd).
  2:{ intros i c Hc. split; [by apply Hr|]. rewrite Hcs.
      apply fresh_columns_lookup. unfold columns.
      rewrite lookup_app_r by (unfold n; lia).
      by replace (n + i - length (u_columns left_ir)) with i
        by (unfold n; lia). }
  simpl. eexists. split; [done|]. simpl. apply fresh_columns_app.
Qed.

Lemma hidden_mapping_eq guid_suffix (hidden_column_ids : list string)
    (calls : nat) :
  hidden_mapping guid_suffix hidden_column_ids calls
  = (zip hidden_column_ids
       (map (hidden_guid guid_suffix)
          (seq calls (length hidden_column_ids))),
     calls + length hidden_column_ids).
Proof.
  revert calls. induction hidden_column_ids as [|id ids IH]; intros calls.
  - simpl. f_equal. lia.
  - simpl. rewrite IH. unfold hidden_guid. f_equal. lia.
Qed.

(** The ordering of the result of the ordered compiler is the one
    [join_orderings] returns, called with [left_order_dominates] set to
    whether the join type differs from ["right"]. *)
Lemma join_by_column_ordered_ordering gen guid_suffix join_orderings
    left_ir right_ir conditions type calls (r : OrderedIR) :
  (join_by_column_ordered gen guid_suffix join_orderings left_ir right_ir
     conditions type calls).1 = ok r →
  ∃ l_mapping r_mapping,
    o_ordering r
    = join_orderings (o_ordering left_ir) (o_ordering right_ir)
        l_mapping r_mapping (negb (bool_decide (type = Right))).
Proof.
  unfold join_by_column_ordered.
  destruct (zip_identifiers gen (o_column_ids left_ir) 0) as [lp drawn].
  destruct (zip_identifiers gen (o_column_ids right_ir) drawn) as [rp ?].
  destruct (hidden_mapping guid_suffix (o_hidden_column_ids left_ir) calls)
    as [lh calls1].
  destruct (hidden_mapping guid_suffix (o_hidden_column_ids right_ir) calls1)
    as [rh calls2].
  simpl. intros H.
  apply bind_inr in H as (jc & _ & H).
  apply bind_inr in H as (lc & _ & H).
  apply bind_inr in H as (rc & _ & H).
  apply bind_inr in H as (lhc & _ & H).
  apply bind_inr in H as (rhc & _ & H).
  injection H as <-. simpl. by eexists _, _.
Qed.

Lemma dict_zip_seq_lookup (f : nat → string) (keys : list string)
    (start i : nat) (key : string) :
  NoDup keys → keys !! i = Some key →
  dict (zip keys (map f (seq start (length keys)))) !! key
  = Some (f (start + i)).
Proof.
  intros Hnd Hi. apply (dict_zip_lookup _ _ i); [done | done |].
  rewrite list_lookup_fmap, lookup_seq_lt; [done|].
  by eapply lookup_lt_Some.
Qed.

Lemma dict_zip_lookup_None {V} (keys : list string) (vals : list V)
    (key : string) :
  key ∉ keys → dict (zip keys vals) !! key = None.
Proof.
  intros Hnotin. apply dict_lookup_None. intros Hin. apply Hnotin.
  eapply elem_of_sublist; [done | apply map_fst_zip_sublist].
Qed.

Lemma map_seq_shift {B} (f g : nat → B) (a b len : nat) :
  (∀ j, j < len → f (a + j) = g (b + j)) →
  map f (seq a len) = map g (seq b len).
Proof.
  intros Hfg. apply list_eq. intros j. rewrite !list_lookup_fmap.
  destruct (decide (j < len)).
  - rewrite !lookup_seq_lt by done. simpl. by rewrite Hfg.
  - by rewrite !lookup_seq_ge by lia.
Qed.

Lemma join_by_column_ordered_columns gen guid_suffix join_orderings
    left_ir right_ir conditions type calls :
  let columns := o_columns left_ir ++ o_columns right_ir in
  let hidden :=
    o_hidden_ordering_columns left_ir ++ o_hidden_ordering_columns right_ir in
  NoDup (o_column_ids left_ir ++ o_hidden_column_ids left_ir) →
  NoDup (o_column_ids right_ir ++ o_hidden_column_ids right_ir) →
  NoDup (map gen (seq 0 (length columns))
         ++ map (hidden_guid guid_suffix) (seq calls (length hidden))) →
  Forall (λ c,
            valid_index (o_columns left_ir
                         ++ o_hidden_ordering_columns left_ir) c.1
            ∧ valid_index (o_columns right_ir
                           ++ o_hidden_ordering_columns right_ir) c.2)
    conditions →
  ∃ r,
    join_by_column_ordered gen guid_suffix join_orderings left_ir right_ir
      conditions type calls
    = (ok r, calls + length hidden)
    ∧ o_columns r = fresh_columns gen columns
    ∧ o_hidden_ordering_columns r
      = fresh_columns (λ j, hidden_guid guid_suffix (calls + j)) hidden.
Proof.
  intros columns hidden Hndl Hndr Hfresh Hvalid.
  set (lcols := o_columns left_ir) in *.
  set (lhid := o_hidden_ordering_columns left_ir) in *.
  set (rcols := o_columns right_ir) in *.
  set (rhid := o_hidden_ordering_columns right_ir) in *.
  set (n := length lcols). set (hl := length lhid).
  set (m := length rcols). set (hr := length rhid).
  unfold join_by_column_ordered, zip_identifiers.
  cbv beta iota zeta.
  rewrite (hidden_mapping_eq _ (o_hidden_column_ids left_ir)).
  cbv beta iota zeta.
  rewrite (hidden_mapping_eq _ (o_hidden_column_ids right_ir)).
  cbv beta iota zeta.
  unfold o_column_ids, o_hidden_column_ids in *.
  fold lcols lhid rcols rhid. rewrite !length_map.
  fold n hl m hr.
  set (l_value := dict (zip (map get_name lcols) (map gen (seq 0 n)))).
  set (r_value := dict (zip (map get_name rcols) (map gen (seq (0 + n) m)))).
  set (l_hidden := dict (zip (map get_name lhid)
                           (map (hidden_guid guid_suffix) (seq calls hl)))).
  set (r_hidden := dict (zip (map get_name rhid)
                           (map (hidden_guid guid_suffix)
                              (seq (calls + hl) hr)))).
  apply NoDup_app in Hndl as (Hndl & Hdisjl & Hndlh).
  apply NoDup_app in Hndr as (Hndr & Hdisjr & Hndrh).
  (* the mappings, position by position *)
  assert (∀ i c, lcols !! i = Some c →
                 (l_hidden ∪ l_value) !! get_name c = Some (gen i)) as Hl.
  { intros i c Hc.
    assert (map get_name lcols !! i = Some (get_name c)) as Hi
      by by rewrite list_lookup_fmap, Hc.
    rewrite lookup_union_r.
    - unfold l_value. replace n with (length (map get_name lcols))
        by apply length_map.
      by rewrite (dict_zip_seq_lookup gen _ 0 i).
    - apply dict_zip_lookup_None, Hdisjl. by eapply list_elem_of_lookup_2. }
  assert (∀ j c, lhid !! j = Some c →
                 l_hidden !! get_name c
                 = Some (hidden_guid guid_suffix (calls + j))) as Hlh.
  { intros j c Hc. unfold l_hidden.
    replace hl with (length (map get_name lhid)) by apply length_map.
    apply dict_zip_seq_lookup; [done|]. by rewrite list_lookup_fmap, Hc. }
  assert (∀ i c, rcols !! i = Some c →
                 (r_hidden ∪ r_value) !! get_name c = Some (gen (n + i)))
    as Hr.
  { intros i c Hc.
    assert (map get_name rcols !! i = Some (get_name c)) as Hi
      by by rewrite list_lookup_fmap, Hc.
    rewrite lookup_union_r.
    - unfold r_value. replace m with (length (map get_name rcols))
        by apply length_map.
      by rewrite (dict_zip_seq_lookup gen _ (0 + n) i).
    - apply dict_zip_lookup_None, Hdisjr. by eapply list_elem_of_lookup_2. }
  assert (∀ j c, rhid !! j = Some c →
                 r_hidden !! get_name c
                 = Some (hidden_guid guid_suffix (calls + hl + j))) as Hrh.
  { intros j c Hc. unfold r_hidden.
    replace hr with (length (map get_name rhid)) by apply length_map.
    apply dict_zip_seq_lookup; [done|]. by rewrite list_lookup_fmap, Hc. }
  (* the two tables *)
  set (names_l := λ i, if decide (i < n) then gen i
                       else hidden_guid guid_suffix (calls + (i - n))).
  set (names_r := λ i, if decide (i < m) then gen (n + i)
                       else hidden_guid guid_suffix (calls + hl + (i - m))).
  assert (table_schema (o_to_ibis_expr left_ir (l_hidden ∪ l_value))
          = fresh_columns names_l (lcols ++ lhid)) as Hls.
  { apply renamed_table_schema. intros i c Hc. unfold override, names_l.
    apply lookup_app_Some in Hc as [Hc|[Hge Hc]].
    - rewrite (Hl i c Hc). simpl. rewrite decide_True; [done|].
      by eapply lookup_lt_Some.
    - rewrite (lookup_union_Some_l _ _ _ _ (Hlh _ c Hc)). simpl.
      fold n in Hge. fold n. by rewrite decide_False by lia. }
  assert (table_schema (o_to_ibis_expr right_ir (r_hidden ∪ r_value))
          = fresh_columns names_r (rcols ++ rhid)) as Hrs.
  { apply renamed_table_schema. intros i c Hc. unfold override, names_r.
    apply lookup_app_Some in Hc as [Hc|[Hge Hc]].
    - rewrite (Hr i c Hc). simpl. rewrite decide_True; [done|].
      by eapply lookup_lt_Some.
    - rewrite (lookup_union_Some_l _ _ _ _ (Hrh _ c Hc)). simpl.
      fold m in Hge. fold m. by rewrite decide_False by lia. }
  destruct (build_join_conditions_succeeds
              (o_to_ibis_expr left_ir (l_hidden ∪ l_value))
              (o_to_ibis_expr right_ir (r_hidden ∪ r_value)) conditions)
    as [join_conditions ->].
  { eapply Forall_impl; [apply Hvalid|]. intros c. unfold valid_index.
    unfold table_columns. rewrite Hls, Hrs, !length_map.
    unfold fresh_columns. by rewrite !length_imap. }
  cbn [mbind Result_bind].
  set (combined := Join _ _ join_conditions type).
  assert (table_schema combined
          = fresh_columns names_l (lcols ++ lhid)
            ++ fresh_columns names_r (rcols ++ rhid)) as Hcs.
  { unfold combined. cbn [table_schema]. by rewrite Hls, Hrs. }
  assert (NoDup (table_columns combined)) as Hnd.
  { unfold table_columns. rewrite Hcs, map_app, !fresh_columns_names.
    rewrite !length_app. fold n hl m hr.
    rewrite !seq_app, !map_app. simpl.
    assert (map names_l (seq 0 n) = map gen (seq 0 n)) as ->.
    { apply map_seq_shift. intros j Hj. unfold names_l. simpl.
      by rewrite decide_True by lia. }
    assert (map names_l (seq n hl)
            = map (hidden_guid guid_suffix) (seq calls hl)) as ->.
    { apply map_seq_shift. intros j Hj. unfold names_l.
      rewrite decide_False by lia. f_equal. lia. }
    assert (map names_r (seq 0 m) = map gen (seq n m)) as ->.
    { apply map_seq_shift. intros j Hj. unfold names_r. simpl.
      by rewrite decide_True by lia. }
    assert (map names_r (seq m hr)
            = map (hidden_guid guid_suffix) (seq (calls + hl) hr)) as ->.
    { apply map_seq_shift. intros j Hj. unfold names_r.
      rewrite decide_False by lia. f_equal. lia. }
    unfold columns, hidden in Hfresh. rewrite !length_app in Hfresh.
    fold n hl m hr in Hfresh. rewrite !seq_app, !map_app in Hfresh.
    simpl in Hfresh.
    eapply NoDup_Permutation_proper; [|apply Hfresh].
    rewrite <- !app_assoc. apply Permutation_app_head.
    rewrite !app_assoc. apply Permutation_app_tail, Permutation_app_comm. }
  assert (∀ i c, (lcols ++ lhid) !! i = Some c →
                 table_schema combined !! i
                 = Some (mkIbisColumn (names_l i) (col_type c))) as Hleft.
  { intros i c Hc. rewrite Hcs. apply lookup_app_l_Some.
    by apply fresh_columns_lookup. }
  assert (∀ i c, (rcols ++ rhid) !! i = Some c →
                 table_schema combined !! (n + hl + i)
                 = Some (mkIbisColumn (names_r i) (col_type c))) as Hright.
  { intros i c Hc. rewrite Hcs, lookup_app_r.
    - unfold fresh_columns at 1. rewrite length_imap, length_app.
      fold n hl. replace (n + hl + i - (n + hl)) with i by lia.
      by apply fresh_columns_lookup.
    - unfold fresh_columns. rewrite length_imap, length_app. fold n hl. lia. }
  rewrite (remapped_columns_fresh combined _ lcols gen 0 Hnd).
  2:{ intros i c Hc. split; [by apply Hl|]. change (0 + i) with i.
      rewrite (Hleft i c) by by apply lookup_app_l_Some.
      unfold names_l. rewrite decide_True; [done|]. by eapply lookup_lt_Some. }
  cbn [mbind Result_bind].
  rewrite (remapped_columns_fresh combined _ rcols
             (λ j, gen (n + j)) (n + hl) Hnd).
  2:{ intros i c Hc. split; [by apply Hr|].
      rewrite (Hright i c) by by apply lookup_app_l_Some.
      unfold names_r. rewrite decide_True; [done|]. by eapply lookup_lt_Some. }
  cbn [mbind Result_bind].
  rewrite (remapped_columns_fresh combined _ lhid
             (λ j, hidden_guid guid_suffix (calls + j)) n Hnd).
  2:{ intros j c Hc. split; [by apply Hlh|].
      rewrite (Hleft (n + j) c).
      - unfold names_l. rewrite decide_False by lia.
        by replace (n + j - n) with j by lia.
      - rewrite lookup_app_r by (fold n; lia).
        fold n. by replace (n + j - n) with j by lia. }
  cbn [mbind Result_bind].
  rewrite (remapped_columns_fresh combined _ rhid
             (λ j, hidden_guid guid_suffix (calls + hl + j))
             (n + hl + m) Hnd).
  2:{ intros j c Hc. split; [by apply Hrh|].
      rewrite <- (Nat.add_assoc (n + hl)), (Hright (m + j) c).
      - unfold names_r. rewrite decide_False by lia.
        by replace (m + j - m) with j by lia.
      - rewrite lookup_app_r by (fold m; lia).
        fold m. by replace (m + j - m) with j by lia. }
  cbn [mbind Result_bind].
  eexists. split; [|split].
  - unfold ok. f_equal. unfold hidden. rewrite length_app. fold hl hr. lia.
  - simpl. apply fresh_columns_app.
  - simpl. unfold hidden.
    rewrite <- (fresh_columns_app _ lhid rhid). fold hl. f_equal.
    unfold fresh_columns. apply imap_ext. intros j c _. simpl.
    f_equal. f_equal. lia.
Qed.

(** C5: for every join type and all conditions within range, both join
    compilers return (given compiled inputs whose column names are distinct
    on each side, and fresh identifiers that are distinct) an expression
    whose columns are the columns of the left input in their order followed
    by the columns of the right input in their order, each with its type
    and under the fresh identifier of its position: one output column per
    input column, the columns of the join keys included, none merged. *)
Theorem join_output_columns :
  ∀ standard_identifiers guid_suffix join_orderings,
    (∀ left_ir right_ir conditions type,
       let columns := u_columns left_ir ++ u_columns right_ir in
       NoDup (u_column_ids left_ir) → NoDup (u_column_ids right_ir) →
       NoDup (map standard_identifiers (seq 0 (length columns))) →
       Forall (λ c, valid_index (u_columns left_ir) c.1
                    ∧ valid_index (u_columns right_ir) c.2) conditions →
       ∃ r,
         join_by_column_unordered standard_identifiers left_ir right_ir
           conditions type = ok r
         ∧ u_columns r = fresh_columns standard_identifiers columns
         ∧ length (u_columns r)
           = length (u_columns left_ir) + length (u_columns right_ir))
    ∧ (∀ left_ir right_ir conditions type calls,
         let columns := o_columns left_ir ++ o_columns right_ir in
         let hidden :=
           o_hidden_ordering_columns left_ir
           ++ o_hidden_ordering_columns right_ir in
         NoDup (o_column_ids left_ir ++ o_hidden_column_ids left_ir) →
         NoDup (o_column_ids right_ir ++ o_hidden_column_ids right_ir) →
         NoDup (map standard_identifiers (seq 0 (length columns))
                ++ map (hidden_guid guid_suffix)
                     (seq calls (length hidden))) →
         Forall (λ c,
                   valid_index (o_columns left_ir
                                ++ o_hidden_ordering_columns left_ir) c.1
                   ∧ valid_index (o_columns right_ir
                                  ++ o_hidden_ordering_columns right_ir) c.2)
           conditions →
         ∃ r,
           (join_by_column_ordered standard_identifiers guid_suffix
              join_orderings left_ir right_ir conditions type calls).1 = ok r
           ∧ o_columns r = fresh_columns standard_identifiers columns
           ∧ length (o_columns r)
             = length (o_columns left_ir) + length (o_columns right_ir)).
Proof.
  intros gen guid_suffix join_orderings. split.
  - intros left_ir right_ir conditions type columns Hl Hr Hgen Hvalid.
    destruct (join_by_column_unordered_columns gen left_ir right_ir
                conditions type Hl Hr Hgen Hvalid) as (r & Hr1 & Hr2).
    exists r. split; [done|]. split; [done|].
    fold columns in Hr2. rewrite Hr2. unfold fresh_columns, columns.
    by rewrite length_imap, length_app.
  - intros left_ir right_ir conditions type calls columns hidden
      Hl Hr Hgen Hvalid.
    destruct (join_by_column_ordered_columns gen guid_suffix join_orderings
                left_ir right_ir conditions type calls Hl Hr Hgen Hvalid)
      as (r & Hr1 & Hr2 & _).
    exists r. rewrite Hr1. split; [done|]. split; [done|].
    fold columns in Hr2. rewrite Hr2. unfold fresh_columns, columns.
    by rewrite length_imap, length_app.
Qed.

(** An inner join of the two example expressions on their columns [k]:
    both [k] columns are in the output, as [col_0] and [col_2]. *)
Lemma join_output_columns_witness :
  (∃ r,
     join_by_column_unordered example_identifiers example_left_unordered
       example_right_unordered [(0, 0)%Z] Inner = ok r
     ∧ u_columns r
       = [mkIbisColumn "col_0" dt_Int64; mkIbisColumn "col_1" dt_String;
          mkIbisColumn "col_2" dt_Int64; mkIbisColumn "col_3" dt_Float64])
  ∧ (∃ r,
       (join_by_column_ordered example_identifiers example_guid_suffix
          example_join_orderings example_left_ordered example_right_ordered
          [(0, 0)%Z] Right 0).1 = ok r
       ∧ o_columns r
         = [mkIbisColumn "col_0" dt_Int64; mkIbisColumn "col_1" dt_String;
            mkIbisColumn "col_2" dt_Int64; mkIbisColumn "col_3" dt_Float64]).
Proof.
  pose proof (join_output_columns example_identifiers example_guid_suffix
                example_join_orderings) as [Hu Ho].
  split.
  - destruct (Hu example_left_unordered example_right_unordered
                [(0, 0)%Z] Inner) as (r & Hr & Hcols & _).
    + apply (bool_decide_unpack _). vm_compute. exact I.
    + apply (bool_decide_unpack _). vm_compute. exact I.
    + apply (bool_decide_unpack _). vm_compute. exact I.
    + repeat constructor; vm_compute; congruence.
    + exists r. split; [exact Hr|]. rewrite Hcols. vm_compute. reflexivity.
  - destruct (Ho example_left_ordered example_right_ordered
                [(0, 0)%Z] Right 0) as (r & Hr & Hcols & _).
    + apply (bool_decide_unpack _). vm_compute. exact I.
    + apply (bool_decide_unpack _). vm_compute. exact I.
    + apply (bool_decide_unpack _). vm_compute. exact I.
    + repeat constructor; vm_compute; congruence.
    + exists r. split; [exact Hr|]. rewrite Hcols. vm_compute. reflexivity.
Defined.

(** ** Ordering of the join *)

(** C7: whenever the ordered join compiler returns, the ordering of the
    result is the one [join_orderings] builds from the orderings of the two
    sides and the two remappings, with [left_order_dominates] true for every
    join type except ["right"], and false for ["right"]. *)
Theorem join_ordering_left_dominates_unless_right :
  ∀ standard_identifiers guid_suffix join_orderings left_ir right_ir
    conditions type calls (r : OrderedIR),
    (join_by_column_ordered standard_identifiers guid_suffix join_orderings
       left_ir right_ir conditions type calls).1 = ok r →
    ∃ l_mapping r_mapping left_order_dominates,
      o_ordering r
      = join_orderings (o_ordering left_ir) (o_ordering right_ir)
          l_mapping r_mapping left_order_dominates
      ∧ (type ≠ Right → left_order_dominates = true)
      ∧ (type = Right → left_order_dominates = false).
Proof.
  intros gen guid_suffix join_orderings left_ir right_ir conditions type
    calls r Hr.
  destruct (join_by_column_ordered_ordering _ _ _ _ _ _ _ _ _ Hr)
    as (l_mapping & r_mapping & Hord).
  exists l_mapping, r_mapping, (negb (bool_decide (type = Right))).
  split; [done|]. split.
  - intros Hne. by rewrite bool_decide_eq_false_2.
  - intros ->. by rewrite bool_decide_eq_true_2.
Qed.

(** The two example expressions joined with type ["left"] and with type
    ["right"]: the compiler returns, and the ordering is the one
    [join_orderings] returns for [left_order_dominates] true, respectively
    false. *)
Lemma join_ordering_left_dominates_unless_right_witness :
  (∃ r l_mapping r_mapping,
     (join_by_column_ordered example_identifiers example_guid_suffix
        example_join_orderings example_left_ordered example_right_ordered
        [(0, 0)%Z] Left 0).1 = ok r
     ∧ o_ordering r
       = example_join_orderings (example_order_by "row")
           (example_order_by "pos") l_mapping r_mapping true)
  ∧ (∃ r l_mapping r_mapping,
       (join_by_column_ordered example_identifiers example_guid_suffix
          example_join_orderings example_left_ordered example_right_ordered
          [(0, 0)%Z] Right 0).1 = ok r
       ∧ o_ordering r
         = example_join_orderings (example_order_by "row")
             (example_order_by "pos") l_mapping r_mapping false).
Proof.
  split.
  - destruct (join_by_column_ordered example_identifiers example_guid_suffix
                example_join_orderings example_left_ordered
                example_right_ordered [(0, 0)%Z] Left 0).1 as [e|r] eqn:E.
    { vm_compute in E. discriminate E. }
    destruct (join_ordering_left_dominates_unless_right _ _ _ _ _ _ _ _ _ E)
      as (l_mapping & r_mapping & d & Hord & Hd & _).
    exists r, l_mapping, r_mapping. split; [reflexivity|].
    rewrite Hord, Hd; [reflexivity | discriminate].
  - destruct (join_by_column_ordered example_identifiers example_guid_suffix
                example_join_orderings example_left_ordered
                example_right_ordered [(0, 0)%Z] Right 0).1 as [e|r] eqn:E.
    { vm_compute in E. discriminate E. }
    destruct (join_ordering_left_dominates_unless_right _ _ _ _ _ _ _ _ _ E)
      as (l_mapping & r_mapping & d & Hord & _ & Hd).
    exists r, l_mapping, r_mapping. split; [reflexivity|].
    rewrite Hord, Hd; reflexivity.
Defined.

(** ** The default ordering *)

Lemma append_nil_r (s : string) : s +:+ "" = s.
Proof.
  induction s as [|c s IH]; [done|].
  change (String c (s +:+ "") = String c s). by rewrite IH.
Qed.

(** Replacing the one-character pattern of a backslash by two backslashes
    doubles every backslash. *)
Lemma str_replace_backslash (s : string) :
  str_replace s "\" "\\" = escape_backslashes s.
Proof.
  unfold str_replace. induction s as [|c s IH]; [done|].
  cbn [replace_from escape_backslashes].
  assert (bool_decide ("\" ≠ "") = true) as ->
    by (apply bool_decide_eq_true_2; discriminate).
  cbn [andb String.prefix].
  destruct (ascii_dec "\" c) as [<-|Hne].
  - rewrite bool_decide_eq_true_2 by done.
    change (String.length "\" - 1) with 0. rewrite IH. by destruct s.
  - rewrite bool_decide_eq_false_2 by congruence. by rewrite IH.
Qed.

Lemma table_columns_getitem (t : IbisTable) :
  NoDup (table_columns t) →
  traverse (table_getitem t) (table_columns t) = inr (table_schema t).
Proof.
  intros Hnd. apply traverse_inr_Forall2. unfold table_columns.
  apply Forall2_fmap_l, Forall_Forall2_diag, Forall_lookup.
  intros i c Hc. by apply (table_getitem_lookup t i).
Qed.

Lemma traverse_omap {A B} (f : A → Result B) (g : A → option B)
    (l : list A) :
  (∀ a, a ∈ l → ∃ b, f a = inr b ∧ g a = Some b) →
  traverse f l = inr (omap g l).
Proof.
  induction l as [|a l IH]; simpl; intros Hfg; [done|].
  destruct (Hfg a) as (b & -> & ->); [left|]. simpl.
  rewrite IH by (intros a' Ha'; apply Hfg; by right). done.
Qed.

Lemma selected_columns_getitem (t : IbisTable) :
  traverse (table_getitem t) (table_columns t) = inr (selected_columns t).
Proof.
  apply traverse_omap. intros name Hname.
  destruct (table_getitem_succeeds t name Hname) as [c Hc].
  exists c. split; [done|]. unfold table_getitem in Hc.
  destruct (list_find _ _) as [[i c']|]; [|discriminate Hc].
  by injection Hc as ->.
Qed.

Lemma selected_columns_names (t : IbisTable) :
  map col_name (selected_columns t) = table_columns t.
Proof.
  pose proof (selected_columns_getitem t) as H.
  apply traverse_inr_Forall2 in H.
  induction H as [|name c names cs Hc _ IH]; [done|]. simpl.
  apply table_getitem_inr in Hc as [-> _]. by rewrite IH.
Qed.

Lemma selected_columns_schema (t : IbisTable) :
  NoDup (table_columns t) → selected_columns t = table_schema t.
Proof.
  intros Hnd. pose proof (selected_columns_getitem t) as H.
  rewrite (table_columns_getitem t Hnd) in H. by injection H.
Qed.

Section Fingerprint.
Variable render : Scalar → string.
Variable st_astext to_json_string : option Scalar → option Scalar.
Variable farm_fingerprint : string → Z.
Variable row : string → option Scalar.
Variable rand : Z.

Local Abbreviation eval_row :=
  (eval render st_astext to_json_string farm_fingerprint row rand).
Local Abbreviation text_of :=
  (nonnull_text render st_astext to_json_string farm_fingerprint row rand).
Local Abbreviation fingerprint_of :=
  (row_fingerprint render st_astext to_json_string farm_fingerprint row rand).

Lemma eval_convert_to_nonnull_string (column : IbisColumn) :
  eval_row (_convert_to_nonnull_string column)
  = Some (SStr ("\" +:+ escape_backslashes (text_of column))).
Proof.
  unfold _convert_to_nonnull_string, nonnull_text.
  cbn [eval map concat_strings].
  destruct (eval_row (text_form column)) as [x|];
    cbn [eval mbind option_bind str_of];
    by rewrite str_replace_backslash, append_nil_r.
Qed.

Lemma eval_StringConcat_cons (v : Value) (vs : list Value) :
  eval_row (StringConcat (v :: vs))
  = x ← eval_row v; r ← eval_row (StringConcat vs);
    Some (SStr (str_of render x +:+ str_of render r)).
Proof.
  cbn [eval map concat_strings].
  destruct (eval_row v) as [x|]; [|done]. cbn [mbind option_bind].
  by destruct (concat_strings render (map eval_row vs)).
Qed.

Lemma eval_StringConcat_converted (columns : list IbisColumn) :
  eval_row (StringConcat (map _convert_to_nonnull_string columns))
  = Some (SStr (fingerprint_of columns)).
Proof.
  induction columns as [|c columns IH]; [done|].
  cbn [map]. rewrite eval_StringConcat_cons, eval_convert_to_nonnull_string.
  cbn [mbind option_bind]. by rewrite IH.
Qed.

Lemma eval_full_row_str (columns : list IbisColumn) (full_row_str : Value) :
  full_row_str_of (map _convert_to_nonnull_string columns) = ok full_row_str →
  eval_row full_row_str = Some (SStr (fingerprint_of columns)).
Proof.
  unfold full_row_str_of. rewrite length_map.
  destruct columns as [|c0 [|c1 columns]]; [discriminate| |].
  - intros [= <-]. rewrite eval_convert_to_nonnull_string. simpl.
    by rewrite append_nil_r.
  - intros [= <-]. apply (eval_StringConcat_converted (c0 :: c1 :: columns)).
Qed.
End Fingerprint.

(** C9 (as stated, fails): on a table without columns
    [gen_default_ordering] raises [IndexError] at [str_values[0]] and
    returns no values. *)
Lemma gen_default_ordering_no_columns :
  (gen_default_ordering example_guid_suffix (BaseTable "empty" []) true 0).1
  = raise IndexError.
Proof. vm_compute. reflexivity. Qed.

(** C9 (amended): for every table with at least one column
    [gen_default_ordering] returns, in order, the hash of the row
    fingerprint, the hash of the fingerprint followed by ["_"], and a random
    value when [use_double_hash] is true, and the first hash and the random
    value when it is false, each under a fresh name; on every row the
    fingerprint evaluates to the concatenation, over the columns the table
    selects for its column names in schema order (the columns of the schema
    themselves, their names being distinct), of a backslash and the text
    form of the column with NULL as the empty text and every backslash
    doubled. *)
Theorem gen_default_ordering_values :
  ∀ guid_suffix (table : IbisTable) (use_double_hash : bool) (calls : nat),
    table_columns table ≠ [] →
    ∃ full_row_str,
      let full_row_hash :=
        Alias (Hash full_row_str) (ordering_guid guid_suffix calls) in
      let full_row_hash_p2 :=
        Alias (Hash (StringConcat [full_row_str; Literal "_"]))
          (ordering_guid guid_suffix (calls + 1)) in
      let random_value :=
        Alias RandomScalar (ordering_guid guid_suffix (calls + 2)) in
      gen_default_ordering guid_suffix table use_double_hash calls
      = (ok (if use_double_hash
             then [full_row_hash; full_row_hash_p2; random_value]
             else [full_row_hash; random_value]),
         calls + 3)
      ∧ map col_name (selected_columns table) = table_columns table
      ∧ (NoDup (table_columns table) →
         selected_columns table = table_schema table)
      ∧ ∀ render st_astext to_json_string farm_fingerprint row rand,
          let eval_row :=
            eval render st_astext to_json_string farm_fingerprint row rand in
          let fingerprint :=
            row_fingerprint render st_astext to_json_string farm_fingerprint
              row rand (selected_columns table) in
          eval_row full_row_str = Some (SStr fingerprint)
          ∧ eval_row full_row_hash
            = Some (SInt (farm_fingerprint fingerprint))
          ∧ eval_row full_row_hash_p2
            = Some (SInt (farm_fingerprint (fingerprint +:+ "_")))
          ∧ eval_row random_value = Some (SFloat rand).
Proof.
  intros guid_suffix table use_double_hash calls Hne.
  unfold gen_default_ordering, generate_guid. cbv beta iota zeta.
  rewrite (selected_columns_getitem table). cbn [mbind Result_bind].
  destruct (full_row_str_of (map _convert_to_nonnull_string
                               (selected_columns table)))
    as [e|full_row_str] eqn:Hfull.
  { exfalso. unfold full_row_str_of in Hfull. rewrite length_map in Hfull.
    rewrite <- selected_columns_names in Hne.
    destruct (selected_columns table) as [|c0 [|c1 cols]]; [done| |];
      discriminate Hfull. }
  exists full_row_str. split; [|split; [|split]].
  - cbn [mbind Result_bind]. unfold ordering_guid, ok.
    replace (calls + 1) with (S calls) by lia.
    replace (calls + 2) with (S (S calls)) by lia.
    replace (calls + 3) with (S (S (S calls))) by lia.
    done.
  - apply selected_columns_names.
  - apply selected_columns_schema.
  - intros render st_astext to_json_string farm_fingerprint row rand.
    pose proof (eval_full_row_str render st_astext to_json_string
                  farm_fingerprint row rand _ _ Hfull) as Heval.
    cbv zeta. split; [done|]. split; [|split]; [| |done].
    + cbn [eval]. rewrite Heval. done.
    + cbn [eval map concat_strings]. rewrite Heval.
      cbn [eval mbind option_bind str_of]. by rewrite append_nil_r.
Qed.

(** The fingerprint and the order values of [example_left_table]. *)
Lemma gen_default_ordering_values_witness :
  ∃ full_row_str,
    gen_default_ordering example_guid_suffix example_left_table false 0
    = (ok [Alias (Hash full_row_str) "bigframes_ordering_0";
           Alias RandomScalar "bigframes_ordering_2"], 3)
    ∧ ∀ row,
        eval (λ _, "") id id (λ _, 0%Z) row 0 full_row_str
        = Some (SStr (row_fingerprint (λ _, "") id id (λ _, 0%Z) row 0
                        (table_schema example_left_table))).
Proof.
  destruct (gen_default_ordering_values example_guid_suffix
              example_left_table false 0)
    as (full_row_str & Hgen & _ & _ & Heval).
  - discriminate.
  - exists full_row_str. split; [exact Hgen|].
    intros row. apply (Heval (λ _, "") id id (λ _, 0%Z) row 0%Z).
Defined.

(** ** Further properties of pruning and equality *)

(** X1: on a tree in which pruning meets no [WindowOpNode], pruning is
    idempotent: pruning the pruned tree against the same set returns the
    pruned tree. *)
Theorem prune_idempotent_without_window_nodes :
  ∀ (self : BigFrameNode) (used_cols : COLUMN_SET),
    window_free self = true →
    prune (prune self used_cols) used_cols = prune self used_cols.
Proof. intros self used_cols Hwf. by apply prune_idempotent_window_free. Qed.

Lemma prune_idempotent_without_window_nodes_witness :
  prune (prune example_projection {["z"]}) {["z"]}
  = prune example_projection {["z"]}.
Proof.
  apply prune_idempotent_without_window_nodes. reflexivity.
Defined.

(** X2: pruning keeps every output column that is in the set pruned
    against: a column id among the ids of [fields] and in [used_cols] is
    among the ids of the fields of the pruned tree. *)
Theorem prune_retains_used_columns :
  ∀ (self : BigFrameNode) (used_cols : COLUMN_SET) (key : ColumnId),
    key ∈ field_ids self → key ∈ used_cols →
    key ∈ field_ids (prune self used_cols).
Proof. intros self used_cols key. apply prune_keeps_used. Qed.

Lemma prune_retains_used_columns_witness :
  "z" ∈ field_ids (prune example_projection {["z"]}).
Proof.
  apply prune_retains_used_columns.
  - apply (bool_decide_unpack _). vm_compute. exact I.
  - apply (bool_decide_unpack _). vm_compute. exact I.
Defined.



(** X5: whenever [fields] returns, the ids of the fields it returns are
    [field_ids], whatever the type resolution of expressions. *)
Theorem fields_ids_are_field_ids :
  ∀ eot aot oot (self : BigFrameNode) (fs : list Field),
    fields eot aot oot self = ok fs → map field_id fs = field_ids self.
Proof. intros eot aot oot self fs. apply fields_field_ids. Qed.

Lemma fields_ids_are_field_ids_witness :
  map field_id
    [mkField "x" INT_DTYPE; mkField "y" INT_DTYPE]
  = field_ids example_join.
Proof.
  apply (fields_ids_are_field_ids no_output_type no_output_type
           no_output_type example_join).
  reflexivity.
Defined.

(** ** Structural rewriting *)


(** ** Pruning *)

Lemma sublist_map_filter {A B} (f : A → B) (P : A → Prop)
    `{∀ x, Decision (P x)} (l : list A) :
  map f (filter P l) `sublist_of` map f l.
Proof. apply fmap_sublist, sublist_filter. Qed.

Lemma prune_field_ids_sublist_of :
  ∀ (self : BigFrameNode) (used_cols : COLUMN_SET),
    field_ids (prune self used_cols) `sublist_of` field_ids self.
Proof.
  intros self.
  induction self using BigFrameNode_ind'; simpl; intros U;
    try done; try apply sublist_map_filter; try apply IHself.
  - by apply sublist_app.
  - destruct (decide (i ∉ U)); simpl.
    + by apply sublist_inserts_r.
    + by apply sublist_app.
  - destruct (decide (length (filter (λ i, i.2 ∈ U) a) = 0)); simpl.
    + by apply sublist_inserts_r.
    + apply sublist_app; [done | apply sublist_map_filter].
  - apply sublist_app; [done | apply sublist_map_filter].
  - destruct (decide (out ∉ U)); simpl.
    + by apply sublist_inserts_r.
    + by apply sublist_app.
Qed.

(** X7: pruning invents no column and reorders none: the output columns of
    the pruned node are a subsequence of the output columns of the node. *)
Theorem prune_field_ids_sublist :
  ∀ (self : BigFrameNode) (used_cols : COLUMN_SET),
    field_ids (prune self used_cols) `sublist_of` field_ids self.
Proof. exact prune_field_ids_sublist_of. Qed.

(** X8: pruning changes neither ordering flag of a node:
    [order_ambiguous] and [explicitly_ordered] of the pruned node are those
    of the node. *)
Theorem prune_keeps_ordering_flags :
  ∀ (self : BigFrameNode) (used_cols : COLUMN_SET),
    order_ambiguous (prune self used_cols) = order_ambiguous self
    ∧ explicitly_ordered (prune self used_cols) = explicitly_ordered self.
Proof.
  intros self.
  induction self using BigFrameNode_ind'; simpl; intros U;
    repeat case_decide; simpl; try done;
    try apply IHself; split; try done; apply IHself.
Qed.

(** ** Planning metrics *)

Lemma nodes_of_child_nodes (self : BigFrameNode) :
  nodes_of self = self :: concat (map nodes_of (child_nodes self)).
Proof. destruct self; simpl; rewrite ?app_nil_r; done. Qed.

Lemma sum_over_nodes (g total : BigFrameNode → nat) :
  (∀ self, total self = g self + sum_list (map total (child_nodes self))) →
  ∀ self, total self = sum_list (map g (nodes_of self)).
Proof.
  intros Htotal self.
  induction self as [ | cs IH | | | | | | | | | | | | | | | | ]
    using BigFrameNode_ind';
    rewrite Htotal, nodes_of_child_nodes; simpl; f_equal;
    rewrite ?app_nil_r, ?fmap_app, ?sum_list_with_app;
    change (@fmap list _ _ _ g) with (map g) in *; try lia.
  induction IH as [|c cs Hc _ IHcs]; simpl; [done|].
  by rewrite map_app, sum_list_with_app, Hc, IHcs.
Qed.

Lemma length_filter_sum {A} (P : A → Prop) `{∀ x, Decision (P x)}
    (l : list A) :
  length (filter P l) = sum_list (map (λ x, if decide (P x) then 1 else 0) l).
Proof.
  induction l as [|x l IH]; simpl; [done|].
  rewrite filter_cons. destruct (decide (P x)); simpl; by rewrite IH.
Qed.

(** X9: the totals are sums over the whole tree: [total_joins] is the
    number of [JoinNode]s among the nodes reached through [child_nodes], and
    [total_relational_ops] is the sum of [relation_ops_created] over
    them. *)
Theorem totals_are_sums_over_the_tree :
  ∀ self : BigFrameNode,
    total_joins self
    = length (filter (λ n, class_of n = cls_JoinNode) (nodes_of self))
    ∧ total_relational_ops self
      = sum_list (map relation_ops_created (nodes_of self)).
Proof.
  intros self. split.
  - rewrite length_filter_sum.
    rewrite (sum_over_nodes (λ n, if joins n then 1 else 0) total_joins).
    + f_equal. apply map_ext. by intros [].
    + by intros [].
  - apply sum_over_nodes. by intros [].
Qed.

Lemma prune_keeps_joins_and_ops :
  ∀ (self : BigFrameNode) (used_cols : COLUMN_SET),
    total_joins (prune self used_cols) = total_joins self
    ∧ (total_relational_ops (prune self used_cols)
       ≤ total_relational_ops self)%nat.
Proof.
  intros self.
  induction self using BigFrameNode_ind'; intros U; simpl;
    repeat case_decide; simpl; try done;
    repeat match goal with
    | IH : ∀ used_cols : COLUMN_SET,
             total_joins (prune ?c used_cols) = _ ∧ _
      |- context [prune ?c ?V] =>
        lazymatch goal with
        | _ : total_joins (prune c V) = _ |- _ => fail
        | _ => pose proof (IH V) as [? ?]
        end
    end; lia.
Qed.

(** X10: pruning removes no join and adds no relational operation:
    [total_joins] of the pruned node is that of the node, and
    [total_relational_ops] does not grow. *)
Theorem prune_keeps_joins_and_adds_no_ops :
  ∀ (self : BigFrameNode) (used_cols : COLUMN_SET),
    total_joins (prune self used_cols) = total_joins self
    ∧ (total_relational_ops (prune self used_cols)
       ≤ total_relational_ops self)%nat.
Proof. exact prune_keeps_joins_and_ops. Qed.

Lemma length_filter_filter {A} (P Q : A → Prop) `{∀ x, Decision (P x)}
    `{∀ x, Decision (Q x)} (l : list A) :
  (length (filter Q (filter P l)) ≤ length (filter Q l))%nat.
Proof.
  induction l as [|x l IH]; simpl; [done|].
  rewrite !filter_cons.
  destruct (decide (P x)), (decide (Q x)); simpl;
    rewrite ?filter_cons; try rewrite decide_True by done;
    try rewrite decide_False by done; simpl; lia.
Qed.

Section MetricsProperties.
Variable expression_output_type :
  Expression → gmap ColumnId Dtype → Result Dtype.
Variable aggregation_output_type :
  Aggregation → gmap ColumnId Dtype → Result Dtype.
Variable op_output_type : UnaryWindowOp → Dtype → Result Dtype.

Local Abbreviation total_variables_of :=
  (total_variables expression_output_type aggregation_output_type
     op_output_type).

Local Ltac use_pruned_child IH :=
  match goal with
  | |- context [total_variables _ _ _ (prune ?c ?V)] =>
      let m := fresh "m" in
      let Hm := fresh "Hm" in
      let Hle := fresh "Hle" in
      destruct (IH V _ eq_refl) as (m & Hm & Hle); rewrite Hm
  end.

Lemma prune_total_variables (self : BigFrameNode) :
  ∀ (used_cols : COLUMN_SET) (tv : nat),
    total_variables_of self = ok tv →
    ∃ m, total_variables_of (prune self used_cols) = ok m ∧ (m ≤ tv)%nat.
Proof.
  induction self using BigFrameNode_ind'; intros U tv Hn;
    try (by exists tv); simpl in Hn |- *.
  all: repeat case_decide; simpl.
  all: repeat match type of Hn with
       | context [total_variables _ _ _ ?c] =>
           is_var c;
           let E := fresh "E" in
           destruct (total_variables _ _ _ c) as [?|?] eqn:E;
           [discriminate|]
       end.
  all: simpl in Hn; injection Hn as <-.
  all: try use_pruned_child IHself1; try use_pruned_child IHself2;
       try use_pruned_child IHself; simpl.
  all: eexists; (split; [reflexivity|]).
  all: repeat match goal with
       | |- context [length (filter ?P ?l)] =>
           lazymatch goal with
           | _ : (length (filter P l) ≤ _)%nat |- _ => fail
           | _ => pose proof (length_filter P l)
           end
       end; try lia.
  pose proof (length_filter_filter (λ i : Expression * ColumnId, i.2 ∈ U)
                (λ i : Expression * ColumnId, is_identity i.1 = false) a).
  lia.
Qed.

(** X11: pruning never makes a plan look more complex: when
    [planning_complexity] of a node is defined, it is defined for the pruned
    node and is not larger. *)
Theorem prune_does_not_raise_planning_complexity :
  ∀ (self : BigFrameNode) (used_cols : COLUMN_SET) (complexity : nat),
    planning_complexity expression_output_type aggregation_output_type
      op_output_type self = ok complexity →
    ∃ pruned_complexity,
      planning_complexity expression_output_type aggregation_output_type
        op_output_type (prune self used_cols) = ok pruned_complexity
      ∧ (pruned_complexity ≤ complexity)%nat.
Proof.
  intros self U complexity. unfold planning_complexity.
  destruct (total_variables_of self) as [e|tv] eqn:Htv; [discriminate|].
  intros [= <-].
  destruct (prune_total_variables self U tv Htv) as (m & -> & Hle).
  destruct (prune_keeps_joins_and_ops self U) as [-> Hops].
  eexists. split; [reflexivity|].
  apply Nat.mul_le_mono_r, Nat.mul_le_mono; done.
Qed.

End MetricsProperties.

Lemma prune_does_not_raise_planning_complexity_witness :
  ∃ pruned_complexity,
    planning_complexity no_output_type no_output_type (λ _ _, raise TypeError)
      (prune example_projection {["a"]}) = ok pruned_complexity
    ∧ (pruned_complexity ≤ 110)%nat.
Proof.
  apply (prune_does_not_raise_planning_complexity no_output_type
           no_output_type (λ _ _, raise TypeError) example_projection {["a"]}).
  vm_compute. reflexivity.
Defined.

(** ** Sessions *)

Lemma session_outcome_functional res1 res2 sessions :
  session_outcome res1 sessions → session_outcome res2 sessions → res1 = res2.
Proof.
  destruct res1 as [e1|[s1|]], res2 as [e2|[s2|]]; simpl.
  - intros [-> _] [-> _]. done.
  - intros (_ & x & y & Hx & Hy & Hxy) [_ Hall].
    destruct Hxy. by rewrite (Hall x), (Hall y).
  - intros (_ & x & y & Hx & Hy & Hxy) ->. by inversion Hx.
  - intros [_ Hall] (_ & x & y & Hx & Hy & Hxy).
    destruct Hxy. by rewrite (Hall x), (Hall y).
  - intros [Hs1 Hall1] [Hs2 Hall2]. by rewrite (Hall2 s1).
  - intros [Hs1 _] ->. by inversion Hs1.
  - intros -> (_ & x & y & Hx & Hy & Hxy). by inversion Hx.
  - intros -> [Hs2 _]. by inversion Hs2.
  - done.
Qed.

Lemma session_outcome_same_elements res l1 l2 :
  (∀ x, x ∈ l1 ↔ x ∈ l2) → session_outcome res l1 → session_outcome res l2.
Proof.
  intros Hiff. destruct res as [e|[s|]]; simpl.
  - intros (-> & x & y & Hx & Hy & Hxy). split; [done|].
    exists x, y. by rewrite <- !Hiff.
  - intros [Hs Hall]. split; [by apply Hiff|].
    intros x Hx. by apply Hall, Hiff.
  - intros ->. destruct l2 as [|x l2]; [done|].
    assert (x ∈ []) as Hx by (apply Hiff; left). by inversion Hx.
Qed.

Lemma combine_sessions_outcome (child_sessions : list (option Session)) :
  session_outcome (combine_sessions child_sessions) (omap id child_sessions).
Proof.
  unfold combine_sessions.
  set (sessions := omap id child_sessions).
  pose proof (NoDup_remove_dups sessions) as Hnd.
  pose proof (elem_of_remove_dups sessions) as Hel.
  destruct (remove_dups sessions) as [|x [|y rest]] eqn:Hrd; simpl.
  - destruct sessions as [|s l]; [done|].
    assert (s ∈ []) as Hs by (apply Hel; left). by inversion Hs.
  - destruct sessions as [|s l] eqn:Hs.
    { assert (x ∈ []) as Hx by (apply Hel; left). by inversion Hx. }
    simpl. split; [left|].
    assert (∀ z, z ∈ s :: l → z = x) as Hall.
    { intros z Hz. apply Hel in Hz. by apply list_elem_of_singleton in Hz. }
    intros z Hz. rewrite (Hall z Hz). symmetry. apply Hall. left.
  - split; [done|].
    exists x, y. split; [apply Hel; left|].
    split; [apply Hel; right; left|].
    intros ->. apply NoDup_cons in Hnd as [Hnin _]. apply Hnin. left.
Qed.

Lemma session_outcome_raise_mono e l1 l2 :
  (∀ x, x ∈ l1 → x ∈ l2) →
  session_outcome (inl e) l1 → session_outcome (inl e) l2.
Proof.
  intros Hsub (-> & x & y & Hx & Hy & Hxy). split; [done|].
  exists x, y. auto.
Qed.

Lemma omap_id_elements (cs : list (option Session))
    (Ls : list (list Session)) :
  Forall2 (λ o L, session_outcome (inr o) L) cs Ls →
  ∀ x, x ∈ omap id cs ↔ x ∈ concat Ls.
Proof.
  induction 1 as [|o L cs Ls Ho _ IH]; intros x; simpl; [done|].
  rewrite elem_of_app, <- IH.
  destruct o as [s|]; simpl in *.
  - destruct Ho as [Hs Hall]. rewrite elem_of_cons.
    split; (intros [Hx|Hx]; [left|by right]); [by subst | by apply Hall].
  - subst L. split; [by right|]. intros [Hx|Hx]; [by inversion Hx | done].
Qed.

Lemma combine_sessions_children (cs : list (option Session))
    (Ls : list (list Session)) :
  Forall2 (λ o L, session_outcome (inr o) L) cs Ls →
  session_outcome (combine_sessions cs) (concat Ls).
Proof.
  intros Hcs.
  apply (session_outcome_same_elements _ (omap id cs));
    [by apply omap_id_elements | apply combine_sessions_outcome].
Qed.

Lemma session_of_children (children : list BigFrameNode) :
  Forall (λ c, session_outcome (session c) (leaf_sessions c)) children →
  session_outcome (traverse session children ≫= combine_sessions)
    (concat (map leaf_sessions children)).
Proof.
  intros Hall.
  assert (match traverse session children with
          | inl e =>
              session_outcome (inl e) (concat (map leaf_sessions children))
          | inr cs =>
              Forall2 (λ o L, session_outcome (inr o) L) cs
                (map leaf_sessions children)
          end) as Hcases.
  { induction Hall as [|c cs Hc _ IH]; simpl; [constructor|].
    destruct (session c) as [e|o]; simpl.
    - eapply session_outcome_raise_mono; [|exact Hc].
      intros x Hx. apply elem_of_app. by left.
    - destruct (traverse session cs) as [e|os]; simpl.
      + eapply session_outcome_raise_mono; [|exact IH].
        intros x Hx. apply elem_of_app. by right.
      + by constructor. }
  destruct (traverse session children) as [e|cs]; simpl; [done|].
  by apply combine_sessions_children.
Qed.

Lemma session_leaf_sessions (self : BigFrameNode) :
  session_outcome (session self) (leaf_sessions self).
Proof.
  induction self as [ | cs IH | | | | | | | | | | | | | | | | ]
    using BigFrameNode_ind'; simpl;
    try (by destruct s; simpl; rewrite ?list_elem_of_singleton;
         try split; try done; intros x; rewrite list_elem_of_singleton);
    try (by apply session_of_children).
  all: match goal with
       | |- session_outcome _ (leaf_sessions ?a ++ leaf_sessions ?b) =>
           assert (session_outcome (traverse session [a; b]
                                    ≫= combine_sessions)
                     (concat (map leaf_sessions [a; b]))) as Hch
             by (apply session_of_children; repeat constructor; done)
       | |- session_outcome _ (leaf_sessions ?a) =>
           assert (session_outcome (traverse session [a]
                                    ≫= combine_sessions)
                     (concat (map leaf_sessions [a]))) as Hch
             by (apply session_of_children; repeat constructor; done)
       end; simpl in Hch; rewrite ?app_nil_r in Hch.
  all: repeat match goal with
       | |- context [session ?c] => destruct (session c) as [?|?]
       end; exact Hch.
Qed.

(** X12: the session of a tree is decided by the sessions of its leaves:
    it is [None] when no leaf has a session, the common session when the
    leaves that have one all have the same, and the [ValueError] as soon
    as two leaves have different sessions; nothing else is raised. *)
Theorem session_is_decided_by_the_leaves :
  ∀ self : BigFrameNode,
    (session self = ok None ↔ leaf_sessions self = [])
    ∧ (∀ s, session self = ok (Some s)
            ↔ s ∈ leaf_sessions self ∧ ∀ x, x ∈ leaf_sessions self → x = s)
    ∧ (raises (session self)
       ↔ ∃ x y, x ∈ leaf_sessions self ∧ y ∈ leaf_sessions self ∧ x ≠ y)
    ∧ (raises (session self) →
       session self
       = raise (ValueError
                  "Cannot use combine sources from multiple sessions.")).
Proof.
  intros self. pose proof (session_leaf_sessions self) as Hout.
  repeat split.
  - intros Heq. by rewrite Heq in Hout.
  - intros Hnil.
    apply (session_outcome_functional _ _ (leaf_sessions self)); done.
  - rewrite H in Hout. apply Hout.
  - rewrite H in Hout. apply Hout.
  - intros [Hs Hall].
    apply (session_outcome_functional _ _ (leaf_sessions self)); done.
  - intros [e He]. rewrite He in Hout. apply Hout.
  - intros Hdiff.
    exists (ValueError "Cannot use combine sources from multiple sessions.").
    apply (session_outcome_functional _ _ (leaf_sessions self)); done.
  - intros [e He]. rewrite He in Hout |- *. by destruct Hout as [-> _].
Qed.

Lemma prune_leaf_sessions (self : BigFrameNode) :
  ∀ used_cols : COLUMN_SET,
    leaf_sessions (prune self used_cols) = leaf_sessions self.
Proof.
  induction self using BigFrameNode_ind'; simpl; intros U;
    repeat case_decide; simpl; try done; try apply IHself.
  by rewrite IHself1, IHself2.
Qed.

(** X13: pruning keeps the session: [session] of the pruned node returns or
    raises what [session] of the node does. *)
Theorem prune_keeps_session :
  ∀ (self : BigFrameNode) (used_cols : COLUMN_SET),
    session (prune self used_cols) = session self.
Proof.
  intros self U.
  apply (session_outcome_functional _ _ (leaf_sessions self));
    [|apply session_leaf_sessions].
  rewrite <- (prune_leaf_sessions self U). apply session_leaf_sessions.
Qed.

(** ** Roots *)

Lemma elem_of_roots_children (children : list BigFrameNode)
    (x : BigFrameNode) :
  x ∈ remove_dups (concat (map roots children))
  ↔ ∃ child, child ∈ children ∧ x ∈ roots child.
Proof.
  rewrite elem_of_remove_dups, elem_of_concat. split.
  - intros (l & Hx & Hl). apply list_elem_of_fmap in Hl as (c & -> & Hc).
    by exists c.
  - intros (c & Hc & Hx). exists (roots c). split; [done|].
    apply list_elem_of_fmap. by exists c.
Qed.

Lemma roots_child_nodes (self : BigFrameNode) :
  roots self
  = if reports_itself_as_root self then [self]
    else remove_dups (concat (map roots (child_nodes self))).
Proof. destruct self; simpl; rewrite ?app_nil_r; done. Qed.

Lemma roots_root_below (self : BigFrameNode) :
  ∀ x, x ∈ roots self → root_below self x.
Proof.
  induction self as [ | cs IH | | | | | | | | | | | | | | | | ]
    using BigFrameNode_ind'; intros x; rewrite roots_child_nodes;
    cbn [reports_itself_as_root];
    try (by intros ->%list_elem_of_singleton; apply root_below_self);
    rewrite elem_of_roots_children; intros (child & Hchild & Hx).
  all: eapply root_below_child; [done | exact Hchild |].
  all: try (simpl in Hchild; rewrite ?elem_of_cons in Hchild;
            destruct Hchild as [->|Hchild];
            [auto | try by apply not_elem_of_nil in Hchild]).
  all: try (destruct Hchild as [->|Hchild];
            [auto | by apply not_elem_of_nil in Hchild]).
  rewrite Forall_forall in IH. by apply IH.
Qed.

Lemma root_below_roots (self x : BigFrameNode) :
  root_below self x → x ∈ roots self.
Proof.
  induction 1 as [x Hx|self child x Hself Hchild _ IH];
    rewrite roots_child_nodes.
  - rewrite Hx. left.
  - rewrite Hself. apply elem_of_roots_children. by exists child.
Qed.

(** X14: the roots of a tree are exactly the leaves and [FromRangeNode]s
    that the tree reaches through child nodes, without looking below a
    [FromRangeNode]; each is listed once. *)
Theorem roots_are_the_reachable_sources :
  ∀ self : BigFrameNode,
    (∀ x, x ∈ roots self ↔ root_below self x) ∧ NoDup (roots self).
Proof.
  intros self. split.
  - intros x. split; [apply roots_root_below | apply root_below_roots].
  - rewrite roots_child_nodes.
    destruct (reports_itself_as_root self);
      [apply NoDup_singleton | apply NoDup_remove_dups].
Qed.

(** ** Construction checks under pruning *)

Lemma ids_field_ids eot aot oot (self : BigFrameNode) (l : list ColumnId) :
  ids eot aot oot self = inr l → l = field_ids self.
Proof.
  unfold ids. intros Hids. apply bind_inr in Hids as (fs & Hfs & Hids).
  injection Hids as <-. by apply fields_field_ids in Hfs.
Qed.

(** X15: pruning cannot make the ids of a join collide: when
    [JoinNode.__post_init__] passes for two children, the assertion does not
    fail for their pruned forms, whatever the sets they are pruned
    against. *)
Theorem JoinNode_check_survives_pruning :
  ∀ eot aot oot (left_child right_child : BigFrameNode)
    (left_used right_used : COLUMN_SET),
    JoinNode_post_init eot aot oot left_child right_child = inr () →
    ∀ msg,
      JoinNode_post_init eot aot oot (prune left_child left_used)
        (prune right_child right_used)
      ≠ inl (AssertionError msg).
Proof.
  intros eot aot oot l r V W Hcheck msg. unfold JoinNode_post_init in *.
  destruct (ids eot aot oot l) as [?|lids] eqn:Hl; [discriminate|].
  destruct (ids eot aot oot r) as [?|rids] eqn:Hr; [discriminate|].
  case_bool_decide as Hdisj; [|discriminate].
  apply ids_field_ids in Hl as ->. apply ids_field_ids in Hr as ->.
  destruct (ids eot aot oot (prune l V)) as [?|lids'] eqn:Hl'; [discriminate|].
  destruct (ids eot aot oot (prune r W)) as [?|rids'] eqn:Hr'; [discriminate|].
  apply ids_field_ids in Hl' as ->. apply ids_field_ids in Hr' as ->.
  rewrite bool_decide_eq_true_2; [discriminate|].
  pose proof (prune_field_ids_sublist_of l V) as Hsl.
  pose proof (prune_field_ids_sublist_of r W) as Hsr.
  apply set_eq. intros x. split; [|by intros ?%not_elem_of_empty].
  rewrite elem_of_intersection, !elem_of_list_to_set. intros [Hxl Hxr].
  assert (x ∈ (list_to_set (field_ids l) ∩ list_to_set (field_ids r)
               : gset ColumnId)) as Hx; [|by rewrite Hdisj in Hx].
  rewrite elem_of_intersection, !elem_of_list_to_set.
  split; [exact (elem_of_sublist _ _ _ Hxl Hsl)
         | exact (elem_of_sublist _ _ _ Hxr Hsr)].
Qed.

Lemma JoinNode_check_survives_pruning_witness :
  JoinNode_post_init no_output_type no_output_type (λ _ _, raise TypeError)
    (prune example_leaf {["a"]}) (prune (example_leaf_of "x" INT_DTYPE) ∅)
  ≠ inl (AssertionError "Join ids collide").
Proof.
  apply (JoinNode_check_survives_pruning no_output_type no_output_type
           (λ _ _, raise TypeError) example_leaf
           (example_leaf_of "x" INT_DTYPE)).
  vm_compute. reflexivity.
Defined.


Section ReadTableCheckProperties.
Variable format_scan_list : ScanList → string.
Variable format_physical_schema : list SchemaField → string.

Local Abbreviation post_init :=
  (ReadTableNode_post_init format_scan_list format_physical_schema).

Lemma ReadTableNode_post_init_ok (source : BigqueryDataSource)
    (scan_list : ScanList) :
  post_init source scan_list = ok ()
  ↔ ∀ item, item ∈ items scan_list →
            source_id item ∈ map sf_name (physical_schema (table source)).
Proof.
  unfold ReadTableNode_post_init.
  case_bool_decide as Hsub; simpl; rewrite elem_of_subseteq in Hsub;
    setoid_rewrite elem_of_list_to_set in Hsub.
  - split; [intros _ item Hitem | done].
    apply Hsub, list_elem_of_fmap. by exists item.
  - split; [discriminate|]. intros Hall. destruct Hsub.
    intros x [item [-> Hitem]]%list_elem_of_fmap. by apply Hall.
Qed.

(** X16: [ReadTableNode.__post_init__] accepts a scan list exactly when
    every scan item reads a column of the physical schema, and raises a
    [ValueError] otherwise; a scan list it accepts is still accepted after
    pruning against any set of columns. *)
Theorem ReadTableNode_check_accepts_physical_columns :
  ∀ (source : BigqueryDataSource) (scan_list : ScanList),
    (post_init source scan_list = ok ()
     ↔ ∀ item, item ∈ items scan_list →
               source_id item ∈ map sf_name (physical_schema (table source)))
    ∧ (post_init source scan_list ≠ ok () →
       ∃ msg, post_init source scan_list = raise (ValueError msg))
    ∧ (post_init source scan_list = ok () →
       ∀ used_cols,
         post_init source (prune_scan_list scan_list used_cols) = ok ()).
Proof.
  intros source scan_list. split; [apply ReadTableNode_post_init_ok|]. split.
  - unfold ReadTableNode_post_init. case_bool_decide; simpl; [done|].
    intros _. by eexists.
  - rewrite ReadTableNode_post_init_ok. intros Hall U.
    apply ReadTableNode_post_init_ok. intros item Hitem. apply Hall.
    unfold prune_scan_list in Hitem. simpl in Hitem.
    by apply list_elem_of_filter in Hitem as [_ Hitem].
Qed.
End ReadTableCheckProperties.

(** ** Table descriptors *)

(** X17: the row count of a table read through [GbqTable.from_table] is
    the [num_rows] of the table when its type is [TABLE] and the source has
    no SQL predicate, and unknown otherwise; the [columns] given to
    [from_table] play no part. *)
Theorem row_count_of_a_table_from_table :
  ∀ (bq_table : BqTable) (columns : list string) at_time
    (predicate : option string) ordering scan_list table_session,
    row_count
      (ReadTableNode
         (mkBigqueryDataSource (from_table bq_table columns) at_time predicate
            ordering)
         scan_list table_session)
    = ok (if decide (predicate = None ∧ bq_table_type bq_table = "TABLE")
          then Some (bq_num_rows bq_table) else None).
Proof.
  intros bq_table columns at_time predicate ordering scan_list table_session.
  simpl. destruct (decide _) as [[-> ->]|Hno]; [done|].
  case_bool_decide as Hp; simpl; [|done].
  case_bool_decide as Ht; [|done]. by destruct Hno.
Qed.

Section FromTableCheck.
Variable format_scan_list : ScanList → string.
Variable format_physical_schema : list SchemaField → string.

(** X18: [GbqTable.from_table] keeps, in the order of the table, the
    schema fields named in [columns], or all of them when [columns] is
    empty; so a [ReadTableNode] over the result accepts a scan list exactly
    when every scan item reads a column of the table that, if [columns] is
    not empty, is also one of [columns]. *)
Theorem from_table_restricts_the_scannable_columns :
  ∀ (bq_table : BqTable) (columns : list string) at_time predicate ordering
    (scan_list : ScanList),
    physical_schema (from_table bq_table columns)
      `sublist_of` bq_schema bq_table
    ∧ (ReadTableNode_post_init format_scan_list format_physical_schema
         (mkBigqueryDataSource (from_table bq_table columns) at_time predicate
            ordering) scan_list = ok ()
       ↔ ∀ item, item ∈ items scan_list →
           source_id item ∈ map sf_name (bq_schema bq_table)
           ∧ (columns ≠ [] → source_id item ∈ columns)).
Proof.
  intros bq_table columns at_time predicate ordering scan_list. split.
  - simpl. case_bool_decide; [apply sublist_filter | done].
  - rewrite ReadTableNode_post_init_ok. simpl.
    apply forall_proper; intros item.
    case_bool_decide as Hcols.
    + split; intros Hitem Hin; specialize (Hitem Hin).
      * apply list_elem_of_fmap in Hitem as (f & -> & Hf).
        apply list_elem_of_filter in Hf as [Hname Hf].
        split; [|done]. apply list_elem_of_fmap. by exists f.
      * destruct Hitem as [Hitem Hc]. specialize (Hc Hcols).
        apply list_elem_of_fmap in Hitem as (f & Heq & Hf).
        apply list_elem_of_fmap. exists f. split; [done|].
        apply list_elem_of_filter. split; [by rewrite <- Heq | done].
    + split; intros Hitem Hin; specialize (Hitem Hin); [by split|].
      apply Hitem.
Qed.
End FromTableCheck.

(** ** Fields of a constructed [ConcatNode] *)

Lemma column_name_inj (i j : nat) :
  "column_" +:+ pretty i = "column_" +:+ pretty j → i = j.
Proof.
  intros H. apply pretty_nat_inj.
  change (String.append "column_" (pretty i)
          = String.append "column_" (pretty j)) in H.
  cbn [String.append] in H. by injection H.
Qed.

Lemma NoDup_column_names (n : nat) :
  NoDup (map (λ i, "column_" +:+ pretty i) (seq 0 n)).
Proof.
  apply NoDup_fmap_2_strong; [|apply NoDup_seq].
  intros i j _ _. apply column_name_inj.
Qed.

Lemma imap_seq_map {A B} (g : nat → B) (l : list A) :
  imap (λ i _, g i) l = map g (seq 0 (length l)).
Proof.
  apply list_eq. intros i. rewrite list_lookup_imap, list_lookup_fmap.
  destruct (decide (i < length l)) as [Hi|Hi].
  - rewrite lookup_seq_lt by done.
    by destruct (lookup_lt_is_Some_2 l i Hi) as [a ->].
  - rewrite lookup_seq_ge by lia. by rewrite lookup_ge_None_2 by lia.
Qed.

(** X19: once [ConcatNode(children)] is constructed, its fields exist:
    they carry the dtypes every child has, in order, under the ids
    [column_0], [column_1], ..., which are distinct. *)
Theorem ConcatNode_fields_after_construction :
  ∀ eot aot oot (children : list BigFrameNode) (node : BigFrameNode),
    new_ConcatNode eot aot oot children = ok node →
    ∃ fs,
      fields eot aot oot node = ok fs
      ∧ (∀ child, child ∈ children →
           child_schema_dtypes eot aot oot child = ok (map field_dtype fs))
      ∧ map field_id fs
        = map (λ i, "column_" +:+ pretty i) (seq 0 (length fs))
      ∧ NoDup (map field_id fs).
Proof.
  intros eot aot oot children node. unfold new_ConcatNode, ConcatNode_post_init.
  destruct (decide (length children = 0)); [discriminate|].
  destruct (traverse _ children) as [e|schemas] eqn:Ht; [discriminate|].
  simpl. case_bool_decide as Hlen; [|discriminate]. simpl. intros [= <-].
  apply remove_dups_length_1 in Hlen as (d & _ & Hall).
  apply traverse_inr_Forall2 in Ht.
  assert (∀ child, child ∈ children →
            child_schema_dtypes eot aot oot child = ok d) as Hd.
  { intros child [i Hi]%list_elem_of_lookup.
    destruct (Forall2_lookup_l _ _ _ _ _ Ht Hi) as (ds & Hds & ->).
    f_equal. apply Hall. by eapply list_elem_of_lookup_2. }
  destruct children as [|child0 children]; [done|].
  pose proof (Hd child0 (list_elem_of_here _ _)) as Hd0.
  unfold child_schema_dtypes, schema in Hd0.
  destruct (fields eot aot oot child0) as [e|fs0] eqn:Hfs0; [discriminate|].
  simpl in Hd0. injection Hd0 as <-.
  cbn [fields]. rewrite Hfs0. simpl. eexists. split; [reflexivity|].
  assert (map field_id
            (imap (λ i field,
                     mkField ("column_" +:+ pretty i) (field_dtype field))
               fs0)
          = map (λ i, "column_" +:+ pretty i) (seq 0 (length fs0))) as Hids.
  { rewrite <- (imap_seq_map (λ i, "column_" +:+ pretty i) fs0).
    change (map field_id) with (fmap (M:=list) field_id).
    rewrite fmap_imap. done. }
  split; [|split].
  - intros child Hchild. rewrite (Hd child Hchild). f_equal.
    unfold dtypes. rewrite map_map.
    change (map field_dtype) with (fmap (M:=list) field_dtype).
    rewrite fmap_imap. simpl. clear.
    generalize 0. induction fs0 as [|f fs0 IH]; intros k; simpl; [done|].
    f_equal. apply (IH (S k)).
  - by rewrite Hids, length_imap.
  - rewrite Hids. apply NoDup_column_names.
Qed.

Lemma ConcatNode_fields_after_construction_witness :
  ∃ fs,
    fields no_output_type no_output_type (λ _ _, raise TypeError)
      (ConcatNode [example_leaf; example_leaf]) = ok fs
    ∧ (∀ child, child ∈ [example_leaf; example_leaf] →
         child_schema_dtypes no_output_type no_output_type
           (λ _ _, raise TypeError) child = ok (map field_dtype fs))
    ∧ map field_id fs
      = map (λ i, "column_" +:+ pretty i) (seq 0 (length fs))
    ∧ NoDup (map field_id fs).
Proof.
  apply (ConcatNode_fields_after_construction no_output_type no_output_type
           (λ _ _, raise TypeError) [example_leaf; example_leaf]).
  vm_compute. reflexivity.
Defined.

(** ** Further properties of the join compilers *)



Lemma py_getitem_out_of_range {A} (l : list A) (i : Z) :
  ¬ valid_index l i → py_getitem l i = raise IndexError.
Proof.
  unfold valid_index, py_getitem. intros Hi.
  rewrite bool_decide_eq_false_2; [done|].
  case_bool_decide; lia.
Qed.

Lemma valid_index_length {A B} (l : list A) (k : list B) (i : Z) :
  length l = length k → valid_index l i ↔ valid_index k i.
Proof. unfold valid_index. by intros ->. Qed.

Lemma build_join_conditions_out_of_range left_table right_table conditions :
  Exists (λ c, ¬ valid_index (table_columns left_table) c.1
               ∨ ¬ valid_index (table_columns right_table) c.2) conditions →
  build_join_conditions left_table right_table conditions = raise IndexError.
Proof.
  unfold build_join_conditions.
  induction conditions as [|[li ri] conditions IH]; intros Hex;
    [by apply Exists_nil in Hex|].
  cbn [traverse fst snd].
  destruct (decide (valid_index (table_columns left_table) li)) as [Hl|Hl];
    [|by rewrite (py_getitem_out_of_range _ _ Hl)].
  destruct (py_getitem_succeeds _ _ Hl) as (ln & -> & Hln).
  destruct (table_getitem_succeeds _ _ Hln) as [lc Hlc].
  cbn [mbind Result_bind]. rewrite Hlc. cbn [mbind Result_bind].
  destruct (decide (valid_index (table_columns right_table) ri)) as [Hr|Hr];
    [|by rewrite (py_getitem_out_of_range _ _ Hr)].
  destruct (py_getitem_succeeds _ _ Hr) as (rn & -> & Hrn).
  destruct (table_getitem_succeeds _ _ Hrn) as [rc Hrc].
  cbn [mbind Result_bind]. rewrite Hrc. cbn [mbind Result_bind].
  apply Exists_cons in Hex as [[Hl'|Hr']|Hex]; [done | done |].
  by rewrite (IH Hex).
Qed.

(** X21: a join condition whose index is out of range makes both join
    compilers raise [IndexError]: in the unordered compiler an index must
    address a column of its side, in the ordered compiler a column or a
    hidden ordering column of its side. *)
Theorem join_condition_out_of_range_raises_IndexError :
  ∀ standard_identifiers guid_suffix join_orderings,
    (∀ left_ir right_ir conditions type,
       Exists (λ c, ¬ valid_index (u_columns left_ir) c.1
                    ∨ ¬ valid_index (u_columns right_ir) c.2) conditions →
       join_by_column_unordered standard_identifiers left_ir right_ir
         conditions type = raise IndexError)
    ∧ (∀ left_ir right_ir conditions type calls,
         Exists (λ c,
                   ¬ valid_index (o_columns left_ir
                                  ++ o_hidden_ordering_columns left_ir) c.1
                   ∨ ¬ valid_index (o_columns right_ir
                                    ++ o_hidden_ordering_columns right_ir)
                         c.2)
           conditions →
         (join_by_column_ordered standard_identifiers guid_suffix
            join_orderings left_ir right_ir conditions type calls).1
         = raise IndexError).
Proof.
  intros gen guid_suffix join_orderings. split.
  - intros left_ir right_ir conditions type Hex.
    unfold join_by_column_unordered, zip_identifiers. cbn [fst snd].
    rewrite build_join_conditions_out_of_range; [done|].
    eapply Exists_impl; [exact Hex|]. intros c Hc. cbn beta in Hc |- *.
    unfold table_columns, u_to_ibis_expr. cbn [table_schema].
    rewrite !(valid_index_length (map col_name (map _ (map _ _))) (u_columns _))
      by (by rewrite !length_map).
    done.
  - intros left_ir right_ir conditions type calls Hex.
    unfold join_by_column_ordered, zip_identifiers.
    rewrite !hidden_mapping_eq. cbn [fst snd].
    rewrite build_join_conditions_out_of_range; [done|].
    eapply Exists_impl; [exact Hex|]. intros c Hc. cbn beta in Hc |- *.
    unfold table_columns, o_to_ibis_expr. cbn [table_schema].
    rewrite !(valid_index_length (map col_name (map _ (map _ _)))
                (o_columns _ ++ o_hidden_ordering_columns _))
      by (by rewrite !length_map).
    done.
Qed.

Lemma join_condition_out_of_range_raises_IndexError_witness :
  join_by_column_unordered example_identifiers example_left_unordered
    example_right_unordered [(0, 0)%Z; (2, 0)%Z] Inner = raise IndexError
  ∧ (join_by_column_ordered example_identifiers example_guid_suffix
       example_join_orderings example_left_ordered example_right_ordered
       [(2, 0)%Z; (0, 3)%Z] Inner 0).1 = raise IndexError.
Proof.
  destruct (join_condition_out_of_range_raises_IndexError example_identifiers
              example_guid_suffix example_join_orderings) as [Hu Ho].
  split.
  - apply Hu. apply Exists_cons_tl, Exists_cons_hd. left.
    unfold valid_index. simpl. lia.
  - apply Ho. apply Exists_cons_tl, Exists_cons_hd. right.
    unfold valid_index. simpl. lia.
Defined.

Section JoinKeyProperties.
Variable render : Scalar → string.
Variable st_astext to_json_string : option Scalar → option Scalar.
Variable farm_fingerprint : string → Z.
Variable row : string → option Scalar.
Variable rand : Z.

Local Abbreviation eval_row :=
  (eval render st_astext to_json_string farm_fingerprint row rand).

Lemma eval_key_comparison (l r : Value) :
  eval_row (Equals (value_to_join_key l) (value_to_join_key r))
  = x ← eval_row (value_to_join_key l);
    y ← eval_row (value_to_join_key r);
    Some (SBool (bool_decide (x = y))).
Proof. done. Qed.

(** X22: the comparison of two join keys is never NULL, and it compares
    texts: a value that is not textual is compared by its text, so it
    matches a text value equal to that text, and the text
    ["$NULL_SENTINEL$"] matches NULL. *)
Theorem join_keys_are_compared_as_text :
  ∀ l r : Value,
    (∃ b, eval_row (Equals (value_to_join_key l) (value_to_join_key r))
          = Some (SBool b))
    ∧ (∀ x s,
         is_string (type_of l) = false → is_string (type_of r) = true →
         eval_row l = Some x → eval_row r = Some (SStr s) →
         eval_row (Equals (value_to_join_key l) (value_to_join_key r))
         = Some (SBool (bool_decide (str_of render x = s))))
    ∧ (is_string (type_of l) = true →
       eval_row l = Some (SStr "$NULL_SENTINEL$") → eval_row r = None →
       eval_row (Equals (value_to_join_key l) (value_to_join_key r))
       = Some (SBool true)).
Proof.
  intros l r. rewrite eval_key_comparison, !eval_value_to_join_key.
  cbn [mbind option_bind]. split; [by eexists|]. split.
  - intros x s -> -> -> ->. do 2 f_equal.
    apply bool_decide_ext. split; [by intros [= ->] | by intros ->].
  - intros -> -> ->. by rewrite bool_decide_eq_true_2.
Qed.
End JoinKeyProperties.

Lemma join_keys_are_compared_as_text_witness :
  eval (λ _, "") id id (λ _, 0%Z) example_sentinel_row 0%Z
    (Equals
       (value_to_join_key (ColumnRef (mkIbisColumn "k" dt_String)))
       (value_to_join_key (ColumnRef (mkIbisColumn "j" dt_Int64))))
  = Some (SBool true).
Proof.
  apply (join_keys_are_compared_as_text (λ _, "") id id (λ _, 0%Z)
           example_sentinel_row 0%Z
           (ColumnRef (mkIbisColumn "k" dt_String))
           (ColumnRef (mkIbisColumn "j" dt_Int64))); reflexivity.
Defined.

(** ** The row fingerprint *)

Lemma append_assoc (s t u : string) : (s +:+ t) +:+ u = s +:+ (t +:+ u).
Proof.
  induction s as [|c s IH]; [done|].
  change (String c ((s +:+ t) +:+ u) = String c (s +:+ (t +:+ u))).
  by rewrite IH.
Qed.

Lemma escape_backslashes_app (s t : string) :
  escape_backslashes (s +:+ t)
  = escape_backslashes s +:+ escape_backslashes t.
Proof.
  induction s as [|c s IH]; [done|].
  change (String c s +:+ t) with (String c (s +:+ t)).
  cbn [escape_backslashes]. rewrite IH. by case_bool_decide.
Qed.

Lemma escape_backslash_free (s : string) :
  backslash_free s = true → escape_backslashes s = s.
Proof.
  induction s as [|c s IH]; [done|]. cbn [backslash_free escape_backslashes].
  intros [Hc Hs]%andb_true_iff. apply negb_true_iff in Hc. rewrite Hc.
  by rewrite IH.
Qed.

(** A text after which a fingerprint can go on: it is empty or starts with
    the backslash of the next column. *)
Lemma texts_split_at_backslash (t1 t2 rest1 rest2 : string) :
  backslash_free t1 = true → backslash_free t2 = true →
  (rest1 = "" ∨ ∃ r, rest1 = String "\" r) →
  (rest2 = "" ∨ ∃ r, rest2 = String "\" r) →
  t1 +:+ rest1 = t2 +:+ rest2 → t1 = t2 ∧ rest1 = rest2.
Proof.
  revert t2. induction t1 as [|c t1 IH]; intros [|c' t2] H1 H2 Hr1 Hr2;
    cbn [backslash_free] in H1, H2.
  - done.
  - apply andb_true_iff in H2 as [Hc _]. apply negb_true_iff in Hc.
    apply bool_decide_eq_false in Hc.
    change ("" +:+ rest1) with rest1.
    change (String c' t2 +:+ rest2) with (String c' (t2 +:+ rest2)).
    intros ->. destruct Hr1 as [|[r [= -> _]]]; done.
  - apply andb_true_iff in H1 as [Hc _]. apply negb_true_iff in Hc.
    apply bool_decide_eq_false in Hc.
    change ("" +:+ rest2) with rest2.
    change (String c t1 +:+ rest1) with (String c (t1 +:+ rest1)).
    intros <-. destruct Hr2 as [|[r [= -> _]]]; done.
  - apply andb_true_iff in H1 as [_ H1]. apply andb_true_iff in H2 as [_ H2].
    change (String c t1 +:+ rest1) with (String c (t1 +:+ rest1)).
    change (String c' t2 +:+ rest2) with (String c' (t2 +:+ rest2)).
    intros [= -> Heq]. destruct (IH t2 H1 H2 Hr1 Hr2 Heq) as [-> ->]. done.
Qed.

Lemma fingerprint_of_texts_shape (texts : list string) :
  fingerprint_of_texts texts = ""
  ∨ ∃ r, fingerprint_of_texts texts = String "\" r.
Proof. destruct texts as [|t texts]; [by left|]. right. by eexists. Qed.

Lemma fingerprint_of_texts_inj (texts1 texts2 : list string) :
  Forall (λ t, backslash_free t = true) texts1 →
  Forall (λ t, backslash_free t = true) texts2 →
  fingerprint_of_texts texts1 = fingerprint_of_texts texts2 →
  texts1 = texts2.
Proof.
  intros H1. revert texts2.
  induction H1 as [|t1 texts1 Ht1 _ IH]; intros texts2 H2;
    destruct H2 as [|t2 texts2 Ht2 H2]; try done.
  cbn [fingerprint_of_texts foldr].
  rewrite !(escape_backslash_free _ Ht1), !(escape_backslash_free _ Ht2).
  fold (fingerprint_of_texts texts1). fold (fingerprint_of_texts texts2).
  intros [= Heq].
  destruct (texts_split_at_backslash _ _ _ _ Ht1 Ht2
              (fingerprint_of_texts_shape texts1)
              (fingerprint_of_texts_shape texts2) Heq) as [-> Hrest].
  by rewrite (IH texts2 H2 Hrest).
Qed.

Section FingerprintProperties.
Variable render : Scalar → string.
Variable st_astext to_json_string : option Scalar → option Scalar.
Variable farm_fingerprint : string → Z.
Variable rand : Z.

Local Abbreviation text_in row :=
  (nonnull_text render st_astext to_json_string farm_fingerprint row rand).
Local Abbreviation fingerprint_in row :=
  (row_fingerprint render st_astext to_json_string farm_fingerprint row rand).

Lemma row_fingerprint_texts (row : string → option Scalar)
    (columns : list IbisColumn) :
  fingerprint_in row columns
  = fingerprint_of_texts (map (text_in row) columns).
Proof.
  unfold row_fingerprint, fingerprint_of_texts.
  induction columns as [|c columns IH]; [done|]. simpl. by rewrite IH.
Qed.

(** X23: when no column text contains a backslash, the row fingerprint
    tells rows apart: two rows that differ in the text of some column have
    different fingerprints. *)
Theorem row_fingerprint_separates_backslash_free_rows :
  ∀ (row1 row2 : string → option Scalar) (columns : list IbisColumn),
    (∀ c, c ∈ columns →
       backslash_free (text_in row1 c) = true
       ∧ backslash_free (text_in row2 c) = true) →
    (∃ c, c ∈ columns ∧ text_in row1 c ≠ text_in row2 c) →
    fingerprint_in row1 columns ≠ fingerprint_in row2 columns.
Proof.
  intros row1 row2 columns Hfree (c & Hc & Hne) Heq. apply Hne.
  rewrite !row_fingerprint_texts in Heq.
  apply fingerprint_of_texts_inj in Heq.
  - apply list_elem_of_lookup in Hc as [i Hi].
    assert (map (text_in row1) columns !! i = map (text_in row2) columns !! i)
      as Hi' by by rewrite Heq.
    rewrite !list_lookup_fmap, Hi in Hi'. by injection Hi'.
  - apply Forall_fmap, Forall_forall. intros c' Hc'. by apply Hfree.
  - apply Forall_fmap, Forall_forall. intros c' Hc'. by apply Hfree.
Qed.
End FingerprintProperties.

Lemma row_fingerprint_separates_backslash_free_rows_witness :
  row_fingerprint (λ _, "") id id (λ _, 0%Z)
    (example_text_row (Some "a") (Some "bc")) 0%Z example_text_columns
  ≠ row_fingerprint (λ _, "") id id (λ _, 0%Z)
      (example_text_row (Some "ab") (Some "c")) 0%Z example_text_columns.
Proof.
  apply row_fingerprint_separates_backslash_free_rows.
  - intros c Hc. repeat (apply elem_of_cons in Hc as [->|Hc]);
      [by vm_compute | by vm_compute | by apply not_elem_of_nil in Hc].
  - exists (mkIbisColumn "a" dt_String). split; [left|]. vm_compute.
    discriminate.
Defined.

Section FingerprintCollisions.
Variable render : Scalar → string.
Variable st_astext to_json_string : option Scalar → option Scalar.
Variable farm_fingerprint : string → Z.
Variable rand : Z.

Local Abbreviation text_in row :=
  (nonnull_text render st_astext to_json_string farm_fingerprint row rand).
Local Abbreviation fingerprint_in row :=
  (row_fingerprint render st_astext to_json_string farm_fingerprint row rand).

Lemma nonnull_text_of_text_column (row : string → option Scalar)
    (c : IbisColumn) :
  col_type c = dt_String →
  text_in row c = match row (col_name c) with
                  | Some x => str_of render x
                  | None => ""
                  end.
Proof. unfold nonnull_text, text_form. by intros ->. Qed.

(** X24: a backslash at a column boundary makes fingerprints collide: a
    row whose text columns hold [s\] and [t] and a row whose text columns
    hold [s] and [\t] have the same fingerprint. *)
Theorem row_fingerprint_collides_at_a_backslash :
  ∀ (row1 row2 : string → option Scalar) (c1 c2 : IbisColumn) (s t : string),
    col_type c1 = dt_String → col_type c2 = dt_String →
    row1 (col_name c1) = Some (SStr (s +:+ "\")) →
    row1 (col_name c2) = Some (SStr t) →
    row2 (col_name c1) = Some (SStr s) →
    row2 (col_name c2) = Some (SStr ("\" +:+ t)) →
    fingerprint_in row1 [c1; c2] = fingerprint_in row2 [c1; c2].
Proof.
  intros row1 row2 c1 c2 s t Hc1 Hc2 H11 H12 H21 H22.
  unfold row_fingerprint. cbn [foldr].
  rewrite !nonnull_text_of_text_column by done.
  rewrite H11, H12, H21, H22. cbn [str_of].
  rewrite !escape_backslashes_app, !append_nil_r, !append_assoc.
  done.
Qed.

(** X25: the fingerprint does not tell NULL from the empty text: a row in
    which a text column is NULL and a row in which it holds the empty text,
    equal in the texts of the other columns, have the same fingerprint. *)
Theorem row_fingerprint_confuses_null_and_empty_text :
  ∀ (row1 row2 : string → option Scalar) (before after : list IbisColumn)
    (c : IbisColumn),
    col_type c = dt_String →
    row1 (col_name c) = None → row2 (col_name c) = Some (SStr "") →
    (∀ c', c' ∈ before ++ after → text_in row1 c' = text_in row2 c') →
    fingerprint_in row1 (before ++ c :: after)
    = fingerprint_in row2 (before ++ c :: after).
Proof.
  intros row1 row2 before after c Hc H1 H2 Hothers.
  rewrite !row_fingerprint_texts. f_equal.
  apply list_eq_Forall2, Forall2_fmap, Forall_Forall2_diag, Forall_forall.
  intros c' [Hc'|Hc']%elem_of_app.
  - apply Hothers, elem_of_app. by left.
  - apply elem_of_cons in Hc' as [->|Hc'].
    + rewrite !nonnull_text_of_text_column by done. by rewrite H1, H2.
    + apply Hothers, elem_of_app. by right.
Qed.
End FingerprintCollisions.

Lemma row_fingerprint_collides_at_a_backslash_witness :
  row_fingerprint (λ _, "") id id (λ _, 0%Z)
    (example_text_row (Some "a\") (Some "b")) 0%Z example_text_columns
  = row_fingerprint (λ _, "") id id (λ _, 0%Z)
      (example_text_row (Some "a") (Some "\b")) 0%Z example_text_columns.
Proof.
  apply (row_fingerprint_collides_at_a_backslash (λ _, "") id id (λ _, 0%Z)
           0%Z _ _ (mkIbisColumn "a" dt_String) (mkIbisColumn "b" dt_String)
           "a" "b"); reflexivity.
Defined.

Lemma row_fingerprint_confuses_null_and_empty_text_witness :
  row_fingerprint (λ _, "") id id (λ _, 0%Z)
    (example_text_row (Some "a") None) 0%Z example_text_columns
  = row_fingerprint (λ _, "") id id (λ _, 0%Z)
      (example_text_row (Some "a") (Some "")) 0%Z example_text_columns.
Proof.
  apply (row_fingerprint_confuses_null_and_empty_text (λ _, "") id id
           (λ _, 0%Z) 0%Z _ _ [mkIbisColumn "a" dt_String] []
           (mkIbisColumn "b" dt_String)); try reflexivity.
  intros c' Hc'. repeat (apply elem_of_cons in Hc' as [->|Hc']);
    [by vm_compute | by apply not_elem_of_nil in Hc'].
Defined.

(** ** What the construction checks ensure *)

(** X26: a join that passes [JoinNode.__post_init__] has distinct output
    columns whenever each child has. *)
Theorem JoinNode_check_keeps_ids_distinct :
  ∀ eot aot oot (left_child right_child : BigFrameNode) conditions type,
    JoinNode_post_init eot aot oot left_child right_child = inr () →
    NoDup (field_ids left_child) → NoDup (field_ids right_child) →
    NoDup (field_ids (JoinNode left_child right_child conditions type)).
Proof.
  intros eot aot oot l r conditions type Hcheck Hl Hr.
  unfold JoinNode_post_init in Hcheck.
  destruct (ids eot aot oot l) as [?|lids] eqn:Hlids; [discriminate|].
  destruct (ids eot aot oot r) as [?|rids] eqn:Hrids; [discriminate|].
  case_bool_decide as Hdisj; [|discriminate].
  apply ids_field_ids in Hlids as ->. apply ids_field_ids in Hrids as ->.
  simpl. apply NoDup_app. split; [done|]. split; [|done].
  intros x Hxl Hxr.
  assert (x ∈ (list_to_set (field_ids l) ∩ list_to_set (field_ids r)
               : gset ColumnId)) as Hx; [|by rewrite Hdisj in Hx].
  by rewrite elem_of_intersection, !elem_of_list_to_set.
Qed.

Lemma JoinNode_check_keeps_ids_distinct_witness :
  NoDup (field_ids example_join).
Proof.
  apply (JoinNode_check_keeps_ids_distinct no_output_type no_output_type
           (λ _ _, raise TypeError)).
  - vm_compute. reflexivity.
  - apply (bool_decide_unpack _). vm_compute. exact I.
  - apply (bool_decide_unpack _). vm_compute. exact I.
Defined.



(** ** Fast head *)

(** X28: [supports_fast_head] is true only of a leaf that is explicitly
    ordered: a local table, or a table read with a sequential ordering. *)
Theorem supports_fast_head_only_when_ordered :
  ∀ self : BigFrameNode,
    supports_fast_head self = ok true →
    child_nodes self = [] ∧ explicitly_ordered self = true.
Proof.
  intros self. destruct self; simpl; try discriminate; try done;
    destruct (ordering source) as [o|]; simpl; try discriminate;
    intros _; split; try done; by apply bool_decide_eq_true_2.
Qed.

Lemma supports_fast_head_only_when_ordered_witness :
  child_nodes example_leaf = [] ∧ explicitly_ordered example_leaf = true.
Proof. apply supports_fast_head_only_when_ordered. reflexivity. Defined.
